(** * Voice expense tracker: the utterance parser and the category classifier

    A shallow embedding of [client/lib/categoryService.ts] and
    [client/lib/voiceService.ts], with the properties of their
    specification stated over it.

    Modelling conventions.
    - A JavaScript string is a [string]: its characters are taken among the
      ASCII code units, on which [toLowerCase], [toUpperCase], [trim], [\s]
      and [\d] are the functions below.  Code units outside ASCII are left
      alone by the case mappings and are neither spaces nor digits.
    - A JavaScript number is a [number]: NaN, the two infinities, or the
      exact rational value of a finite double.
    - A call either returns normally or throws: [completion].
    - The system clock and the local time zone are read from an [Env]. *)

From Stdlib Require Import String Ascii List Bool Arith ZArith QArith Lia.
From Stdlib Require Import Sorting.Sorted Sorting.Permutation.
Import ListNotations.

Local Open Scope string_scope.
Local Open Scope list_scope.
Local Open Scope nat_scope.

(** ** JavaScript strings *)

Module JsString.

Definition code (c : ascii) : nat := nat_of_ascii c.

Definition is_upper (c : ascii) : bool := (65 <=? code c) && (code c <=? 90).
Definition is_lower (c : ascii) : bool := (97 <=? code c) && (code c <=? 122).

(** [\d] *)
Definition is_digit (c : ascii) : bool := (48 <=? code c) && (code c <=? 57).

(** [\s], and the characters [trim] removes: TAB, LF, VT, FF, CR, SPACE. *)
Definition is_space (c : ascii) : bool :=
  ((9 <=? code c) && (code c <=? 13)) || (code c =? 32).

Definition lower_char (c : ascii) : ascii :=
  if is_upper c then ascii_of_nat (code c + 32) else c.

Definition upper_char (c : ascii) : ascii :=
  if is_lower c then ascii_of_nat (code c - 32) else c.

Fixpoint map_chars (f : ascii -> ascii) (s : string) : string :=
  match s with
  | EmptyString => EmptyString
  | String c s' => String (f c) (map_chars f s')
  end.

Definition toLowerCase (s : string) : string := map_chars lower_char s.
Definition toUpperCase (s : string) : string := map_chars upper_char s.

Fixpoint trimStart (s : string) : string :=
  match s with
  | String c s' => if is_space c then trimStart s' else s
  | EmptyString => EmptyString
  end.

Fixpoint trimEnd (s : string) : string :=
  match s with
  | EmptyString => EmptyString
  | String c s' =>
      match trimEnd s' with
      | EmptyString => if is_space c then EmptyString else String c EmptyString
      | t => String c t
      end
  end.

Definition trim (s : string) : string := trimEnd (trimStart s).

(** [s.startsWith(k)] *)
Fixpoint startsWith (s k : string) : bool :=
  match k, s with
  | EmptyString, _ => true
  | String a k', String b s' => Ascii.eqb a b && startsWith s' k'
  | String _ _, EmptyString => false
  end.

(** [s.includes(k)]: [k] occurs in [s] at some index. *)
Fixpoint includes (s k : string) : bool :=
  startsWith s k ||
  match s with
  | EmptyString => false
  | String _ s' => includes s' k
  end.

(** [s.charAt(i)]: the empty string out of range. *)
Definition charAt (s : string) (i : nat) : string :=
  match String.get i s with
  | Some c => String c EmptyString
  | None => EmptyString
  end.

(** [s.slice(i)] for [0 <= i]. *)
Fixpoint slice (s : string) (i : nat) {struct i} : string :=
  match i with
  | O => s
  | S i' =>
      match s with
      | String _ s' => slice s' i'
      | EmptyString => EmptyString
      end
  end.

(** [s.split(sep)] for a one-character separator. *)
Fixpoint split (sep : ascii) (s : string) : list string :=
  match s with
  | EmptyString => [EmptyString]
  | String c s' =>
      if Ascii.eqb c sep then EmptyString :: split sep s'
      else match split sep s' with
           | w :: ws => String c w :: ws
           | [] => [String c EmptyString]
           end
  end.

(** [words.join(sep)] *)
Fixpoint join (sep : string) (words : list string) : string :=
  match words with
  | [] => EmptyString
  | [w] => w
  | w :: ws => w ++ sep ++ join sep ws
  end.

End JsString.

Import JsString.

(** ** JavaScript numbers *)

Inductive number : Type :=
| NaN
| PosInf
| NegInf
| Finite (q : Q).

Module JsNumber.

Definition Qltb (a b : Q) : bool := (Qnum a * QDen b <? Qnum b * QDen a)%Z.

(** [a < b]: false as soon as one side is NaN. *)
Definition lt (a b : number) : bool :=
  match a, b with
  | NaN, _ | _, NaN => false
  | PosInf, _ => false
  | _, NegInf => false
  | NegInf, _ => true
  | _, PosInf => true
  | Finite x, Finite y => Qltb x y
  end.

(** [a > b] *)
Definition gt (a b : number) : bool := lt b a.

Definition isNaN (a : number) : bool :=
  match a with NaN => true | _ => false end.

Definition isFinite (a : number) : bool :=
  match a with Finite _ => true | _ => false end.

(** ToBoolean on a number: 0 and NaN are falsy. *)
Definition truthy (a : number) : bool :=
  match a with
  | NaN => false
  | Finite q => negb (Qnum q =? 0)%Z
  | _ => true
  end.

Definition of_Z (z : Z) : number := Finite (inject_Z z).

(** The double nearest to the positive rational [n / d], ties to even;
    [PosInf] from [2^1024 - 2^970] on. *)
Definition scaled_le (e : Z) (n d : Z) : bool :=
  (if 0 <=? e then d * 2 ^ e <=? n else d <=? n * 2 ^ (- e))%Z.

Definition round_half_even (num den : Z) : Z :=
  (let m := num / den in
   let r := num mod den in
   if 2 * r <? den then m
   else if den <? 2 * r then m + 1
   else if Z.even m then m else m + 1)%Z.

Definition binary64 (n d : Z) : number :=
  (if n <=? 0 then Finite 0%Q
   else
     let e0 := Z.log2 n - Z.log2 d in
     let e := if scaled_le e0 n d then e0 else e0 - 1 in
     let u := Z.max (e - 52) (-1074) in
     let m := if 0 <=? u then round_half_even n (d * 2 ^ u)
              else round_half_even (n * 2 ^ (- u)) d in
     if 0 <=? u
     then (if 2 ^ 1024 <=? m * 2 ^ u then PosInf
           else Finite (inject_Z (m * 2 ^ u)))
     else Finite (Qred (Qmake m (Z.to_pos (2 ^ (- u))))))%Z.

Definition digit_value (c : ascii) : Z := Z.of_nat (code c - 48).

(** The longest prefix of decimal digits, read in base 10 on top of [acc],
    with the number of digits read and the rest of the string. *)
Fixpoint read_digits (s : string) (acc : Z) (count : nat) : Z * nat * string :=
  match s with
  | String c s' =>
      if is_digit c then read_digits s' (acc * 10 + digit_value c)%Z (S count)
      else (acc, count, s)
  | EmptyString => (acc, count, s)
  end.

(** [parseFloat] on the unsigned decimal numerals without exponent (the
    only shape the amount patterns capture): the longest prefix
    [digits], [digits.], [digits.digits] or [.digits] is converted, and
    the result is NaN when the string starts with none of them. *)
Definition parseFloat (s : string) : number :=
  let s := trimStart s in
  let '(ip, ni, rest) := read_digits s 0%Z 0 in
  match rest with
  | String "."%char rest' =>
      let '(v, nf, _) := read_digits rest' ip 0 in
      if (ni =? 0) && (nf =? 0) then NaN
      else binary64 v (10 ^ Z.of_nat nf)
  | _ => if ni =? 0 then NaN else binary64 ip 1
  end.

End JsNumber.

(** ** JavaScript values and completions *)

#[warnings="-register-all"]
Inductive value : Type :=
| VUndefined
| VNull
| VBool (b : bool)
| VNumber (n : number)
| VString (s : string)
| VObject (props : list (string * value)).

Inductive completion (A : Type) : Type :=
| Normal (a : A)
| Throw (error : string).

Arguments Normal {A} a.
Arguments Throw {A} error.

Module JsValue.

(** ToBoolean *)
Definition truthy (v : value) : bool :=
  match v with
  | VUndefined | VNull => false
  | VBool b => b
  | VNumber n => JsNumber.truthy n
  | VString s => negb (String.eqb s "")
  | VObject _ => true
  end.

Definition typeof (v : value) : string :=
  match v with
  | VUndefined => "undefined"
  | VNull => "object"
  | VBool _ => "boolean"
  | VNumber _ => "number"
  | VString _ => "string"
  | VObject _ => "object"
  end.

Fixpoint lookup {A : Type} (k : string) (l : list (string * A)) : option A :=
  match l with
  | [] => None
  | (k', a) :: l' => if String.eqb k' k then Some a else lookup k l'
  end.

(** [v.name] on a value that is neither null nor undefined: own properties
    of an object, [length] of a string, undefined otherwise. *)
Definition get (v : value) (name : string) : value :=
  match v with
  | VObject props =>
      match lookup name props with Some x => x | None => VUndefined end
  | VString s =>
      if String.eqb name "length"
      then VNumber (JsNumber.of_Z (Z.of_nat (String.length s)))
      else VUndefined
  | _ => VUndefined
  end.

(** [a && b], [b] evaluated only when [a] is truthy. *)
Definition and_then (a : value) (b : unit -> value) : value :=
  if truthy a then b tt else a.

(** A method of [String.prototype] called on [v]: a TypeError on anything
    that is not a string. *)
Definition string_method {A : Type} (v : value) (f : string -> A)
  : completion A :=
  match v with
  | VString s => Normal (f s)
  | _ => Throw "TypeError"
  end.

End JsValue.

Import JsValue.

(** ** categoryService.ts *)

(** The keyword table, an object whose own keys are enumerated in the
    order of the literal. *)
Definition categoryKeywords : list (string * list string) :=
  [ ("Food & Dining",
     [ "restaurant"; "coffee"; "lunch"; "dinner"; "breakfast"; "cafe"; "starbucks";
       "mcdonalds"; "kfc"; "pizza"; "burger"; "food"; "eat"; "meal"; "snack";
       "restaurant"; "diner"; "bistro"; "bakery"; "donut"; "sandwich"; "sushi";
       "chinese"; "italian"; "mexican"; "thai"; "indian"; "fast food"; "takeout" ]);
    ("Groceries",
     [ "grocery"; "groceries"; "supermarket"; "walmart"; "target"; "costco";
       "whole foods"; "safeway"; "kroger"; "publix"; "trader joes"; "market";
       "vegetables"; "fruits"; "meat"; "dairy"; "bread"; "milk"; "eggs";
       "shopping"; "food shopping"; "weekly shopping" ]);
    ("Transportation",
     [ "gas"; "gasoline"; "fuel"; "car"; "uber"; "lyft"; "taxi"; "train";
       "bus"; "subway"; "metro"; "parking"; "toll"; "vehicle"; "transport";
       "travel"; "commute"; "flight"; "airline"; "airport"; "rental car";
       "auto"; "motorcycle"; "bike repair" ]);
    ("Entertainment",
     [ "movie"; "cinema"; "theater"; "concert"; "show"; "game"; "bowling";
       "amusement"; "park"; "zoo"; "museum"; "netflix"; "spotify"; "music";
       "entertainment"; "fun"; "leisure"; "hobby"; "sports"; "gym membership";
       "streaming"; "subscription"; "gaming"; "books"; "magazine" ]);
    ("Shopping",
     [ "amazon"; "clothes"; "clothing"; "shoes"; "shirt"; "pants"; "dress";
       "store"; "mall"; "shopping"; "purchase"; "buy"; "bought"; "retail";
       "electronics"; "phone"; "computer"; "laptop"; "accessories"; "jewelry";
       "cosmetics"; "makeup"; "perfume"; "home goods"; "furniture" ]);
    ("Utilities",
     [ "electric"; "electricity"; "gas bill"; "water"; "internet"; "phone bill";
       "cable"; "utility"; "utilities"; "bill"; "power"; "heating"; "cooling";
       "trash"; "garbage"; "recycling"; "sewer"; "landline"; "mobile bill" ]);
    ("Healthcare",
     [ "doctor"; "hospital"; "pharmacy"; "medicine"; "prescription"; "medical";
       "health"; "dental"; "dentist"; "clinic"; "checkup"; "surgery"; "therapy";
       "insurance"; "copay"; "medication"; "drugs"; "treatment"; "appointment";
       "urgent care"; "emergency room"; "specialist" ]);
    ("Other",
     [ "miscellaneous"; "misc"; "other"; "various"; "random"; "unknown" ]) ].

(** [Object.keys(categoryKeywords)] *)
Definition getAllCategories : list string := map fst categoryKeywords.

(** [categoryKeywords[category] || []] *)
Definition keywordsOf (category : string) : list string :=
  match lookup category categoryKeywords with
  | Some keywords => keywords
  | None => []
  end.

(** Priority order for categories (more specific first) *)
Definition categoryOrder : list string :=
  [ "Healthcare"; "Transportation"; "Groceries"; "Food & Dining";
    "Utilities"; "Entertainment"; "Shopping"; "Other" ].

(** The inner loop of [categorizeExpense]: some keyword of the list,
    lowercased, occurs in the normalized description. *)
Fixpoint anyKeyword (normalizedDescription : string) (keywords : list string)
  : bool :=
  match keywords with
  | [] => false
  | keyword :: rest =>
      if includes normalizedDescription (toLowerCase keyword) then true
      else anyKeyword normalizedDescription rest
  end.

(** The outer loop: the first category of the order with a matching
    keyword is returned at once; the default fallback after the loop. *)
Fixpoint bestCategory (normalizedDescription : string) (order : list string)
  : string :=
  match order with
  | [] => "Other"
  | category :: rest =>
      if anyKeyword normalizedDescription (keywordsOf category) then category
      else bestCategory normalizedDescription rest
  end.

Definition categorizeExpense (description : value) : completion string :=
  if negb (truthy description) || negb (String.eqb (typeof description) "string")
  then Normal "Other"
  else
    match string_method description (fun s => trim (toLowerCase s)) with
    | Throw e => Throw e
    | Normal normalizedDescription =>
        Normal (bestCategory normalizedDescription categoryOrder)
    end.

(** The score loop of [getSuggestedCategories]: [score += keyword.length]
    for each keyword that occurs in the description. *)
Definition keywordScore (normalizedDescription : string)
  (keywords : list string) : nat :=
  fold_left
    (fun score keyword =>
       if includes normalizedDescription (toLowerCase keyword)
       then score + String.length keyword
       else score)
    keywords 0.

Record Suggestion : Type := { category : string; score : nat }.

(** The loop over [Object.entries(categoryKeywords)], pushing the
    categories of positive score. *)
Definition collectSuggestions (normalizedDescription : string)
  (entries : list (string * list string)) : list Suggestion :=
  fold_left
    (fun suggestions entry =>
       let score := keywordScore normalizedDescription (snd entry) in
       if 0 <? score
       then suggestions ++ [ {| category := fst entry; score := score |} ]
       else suggestions)
    entries [].

(** [Array.prototype.sort] is stable: an element goes before the first
    element the comparator does not put it after. *)
Section Sort.
Context {A : Type} (compare : A -> A -> Z).

Fixpoint insertSorted (a : A) (l : list A) : list A :=
  match l with
  | [] => [a]
  | b :: l' => if (compare a b <=? 0)%Z then a :: l
               else b :: insertSorted a l'
  end.

Definition sort (l : list A) : list A := fold_right insertSorted [] l.
End Sort.

(** [(a, b) => b.score - a.score] *)
Definition byScoreDescending (a b : Suggestion) : Z :=
  (Z.of_nat (score b) - Z.of_nat (score a))%Z.

Definition getSuggestedCategories (description : string) : list string :=
  if negb (truthy (VString description)) || (String.length description <? 2)
  then getAllCategories
  else
    let normalizedDescription := toLowerCase description in
    let suggestions := collectSuggestions normalizedDescription categoryKeywords in
    map category (firstn 3 (sort byScoreDescending suggestions)).

(** [Object.keys(categoryKeywords).includes(category)] *)
Definition isValidCategory (category : string) : bool :=
  existsb (String.eqb category) getAllCategories.

(** ** Regular expressions

    The backtracking matcher of ECMAScript, in continuation-passing style,
    for the constructs the patterns of [voiceService.ts] use.  Every
    iteration in them is over a character class, so [Star] takes a class;
    every pattern has at most one capture group. *)

Module RegExp.

Inductive regex : Type :=
| Empty
| Char (c : ascii)
| Class (p : ascii -> bool)
| Cat (r1 r2 : regex)
| Alt (r1 r2 : regex)
| Opt (r : regex)
| Star (p : ascii -> bool)
| Group (r : regex)
| Bol
| Eol.

Record RegExp : Type :=
  { source : regex; ignoreCase : bool; global : bool }.

(** The end of the match so far, the input from there on, and group 1. *)
Record State : Type :=
  { endIndex : nat; rest : string; capture : option string }.

Definition Continuation : Type := State -> option State.

Section Matcher.
Variable icase : bool.

Definition canonicalize (c : ascii) : ascii :=
  if icase then upper_char c else c.

Definition advance (x : State) (s' : string) : State :=
  {| endIndex := S (endIndex x); rest := s'; capture := capture x |}.

(** Greedy [p*]: the longest run first, then one character less. *)
Fixpoint star (p : ascii -> bool) (s : string) (i : nat)
  (cap : option string) (c : Continuation) : option State :=
  let here := {| endIndex := i; rest := s; capture := cap |} in
  match s with
  | String a s' =>
      if p a
      then match star p s' (S i) cap c with
           | Some y => Some y
           | None => c here
           end
      else c here
  | EmptyString => c here
  end.

Fixpoint matcher (r : regex) (x : State) (c : Continuation) : option State :=
  match r with
  | Empty => c x
  | Char ch =>
      match rest x with
      | String a s' =>
          if Ascii.eqb (canonicalize a) (canonicalize ch)
          then c (advance x s') else None
      | EmptyString => None
      end
  | Class p =>
      match rest x with
      | String a s' => if p a then c (advance x s') else None
      | EmptyString => None
      end
  | Cat r1 r2 => matcher r1 x (fun y => matcher r2 y c)
  | Alt r1 r2 =>
      match matcher r1 x c with
      | Some y => Some y
      | None => matcher r2 x c
      end
  | Opt r1 =>
      match matcher r1 x
              (fun y => if endIndex y =? endIndex x then None else c y) with
      | Some y => Some y
      | None => c x
      end
  | Star p => star p (rest x) (endIndex x) (capture x) c
  | Group r1 =>
      matcher r1 x
        (fun y =>
           c {| endIndex := endIndex y;
                rest := rest y;
                capture :=
                  Some (substring 0 (endIndex y - endIndex x) (rest x)) |})
  | Bol => if endIndex x =? 0 then c x else None
  | Eol => match rest x with EmptyString => c x | _ => None end
  end.

Definition matchAt (r : regex) (s : string) (i : nat) : option State :=
  matcher r {| endIndex := i; rest := s; capture := None |} Some.

(** The leftmost match at or after index [i], [s] being the input from
    [i] on: where it starts, and its final state. *)
Fixpoint search (r : regex) (s : string) (i : nat) : option (nat * State) :=
  match matchAt r s i with
  | Some y => Some (i, y)
  | None =>
      match s with
      | String _ s' => search r s' (S i)
      | EmptyString => None
      end
  end.

(** Replacement of every match, left to right: [skip] characters of the
    last match are still to be dropped; after an empty match the search
    resumes one character further. *)
Fixpoint replaceEach (r : regex) (replacement : string) (s : string)
  (i skip : nat) : string :=
  match skip with
  | S k =>
      match s with
      | String _ s' => replaceEach r replacement s' (S i) k
      | EmptyString => EmptyString
      end
  | O =>
      match matchAt r s i with
      | Some y =>
          replacement ++
          match endIndex y - i, s with
          | _, EmptyString => EmptyString
          | O, String a s' => String a (replaceEach r replacement s' (S i) 0)
          | S k, String _ s' => replaceEach r replacement s' (S i) k
          end
      | None =>
          match s with
          | String a s' => String a (replaceEach r replacement s' (S i) 0)
          | EmptyString => EmptyString
          end
      end
  end.
End Matcher.

(** [s.match(re)] for a pattern without the [g] flag: the leftmost match,
    or null. *)
Definition match_ (s : string) (re : RegExp) : option State :=
  match search (ignoreCase re) (source re) s 0 with
  | Some (_, y) => Some y
  | None => None
  end.

(** [s.replace(re, replacement)], the replacement having no [$]. *)
Definition replace (s : string) (re : RegExp) (replacement : string) : string :=
  if global re
  then replaceEach (ignoreCase re) (source re) replacement s 0 0
  else match search (ignoreCase re) (source re) s 0 with
       | Some (i, y) => substring 0 i s ++ replacement ++ rest y
       | None => s
       end.

(** Pattern syntax. *)
Fixpoint lit (s : string) : regex :=
  match s with
  | EmptyString => Empty
  | String c EmptyString => Char c
  | String c s' => Cat (Char c) (lit s')
  end.

Fixpoint oneOf (words : list string) : regex :=
  match words with
  | [] => Empty
  | [w] => lit w
  | w :: ws => Alt (lit w) (oneOf ws)
  end.

Definition Plus (p : ascii -> bool) : regex := Cat (Class p) (Star p).

Declare Scope regex_scope.
Delimit Scope regex_scope with re.
Bind Scope regex_scope with regex.
Infix "**" := Cat (at level 40, left associativity) : regex_scope.
Infix "<|>" := Alt (at level 55, right associativity) : regex_scope.

End RegExp.

Import RegExp.

(** ** voiceService.ts *)

(** A [Date] holds a time value, in milliseconds since the epoch. *)
Record Date : Type := { getTime : Z }.

Record ParsedExpense : Type :=
  { amount : number;
    description : string;
    date : option Date   (* [date?: Date] *) }.

(** What a call reads from its environment: the clock at [new Date()], the
    clock at the later [Date.now()], and the offset of local time from UTC
    in milliseconds, taken constant over the instants involved. *)
Record Env : Type :=
  { clockAtNewDate : Z;
    clockAtDateNow : Z;
    localTZA : Z }.

Module JsDate.
Local Open Scope Z_scope.

Definition msPerDay : Z := 86400000.

Definition LocalTime (env : Env) (t : Z) : Z := t + localTZA env.
Definition UTC (env : Env) (t : Z) : Z := t - localTZA env.
Definition Day (t : Z) : Z := t / msPerDay.
Definition TimeWithinDay (t : Z) : Z := t mod msPerDay.
Definition MakeTime (hour min sec ms : Z) : Z :=
  hour * 3600000 + min * 60000 + sec * 1000 + ms.
Definition MakeDate (day time : Z) : Z := day * msPerDay + time.

(** [date.setHours(hour, min, sec, ms)] *)
Definition setHours (env : Env) (d : Date) (hour min sec ms : Z) : Date :=
  let t := LocalTime env (getTime d) in
  {| getTime := UTC env (MakeDate (Day t) (MakeTime hour min sec ms)) |}.

(** The local clock time of a date, in milliseconds after midnight. *)
Definition clockTime (env : Env) (d : Date) : Z :=
  TimeWithinDay (LocalTime env (getTime d)).
End JsDate.

Definition space : ascii -> bool := is_space.
Definition digit : ascii -> bool := is_digit.

(** [\d+(?:\.\d{2})?] *)
Definition decimal : regex :=
  (Plus digit ** Opt (Char "." ** Class digit ** Class digit))%re.

(** Amount extraction patterns *)
Definition amountPatterns : list RegExp :=
  [ (* /(?:spent|paid|cost|was|for)\s*\$?(\d+(?:\.\d{2})?)\s*(?:dollars?|bucks?|$)/i *)
    {| source :=
         (oneOf ["spent"; "paid"; "cost"; "was"; "for"] ** Star space
          ** Opt (Char "$") ** Group decimal ** Star space
          ** (lit "dollar" ** Opt (Char "s")
              <|> lit "buck" ** Opt (Char "s")
              <|> Eol))%re;
       ignoreCase := true; global := false |};
    (* /\$(\d+(?:\.\d{2})?)/ *)
    {| source := (Char "$" ** Group decimal)%re;
       ignoreCase := false; global := false |};
    (* /(\d+(?:\.\d{2})?)\s*(?:dollars?|bucks?)/i *)
    {| source :=
         (Group decimal ** Star space
          ** (lit "dollar" ** Opt (Char "s") <|> lit "buck" ** Opt (Char "s")))%re;
       ignoreCase := true; global := false |};
    (* /(?:spent|paid|cost|was)\s*(\d+(?:\.\d{2})?)/i *)
    {| source :=
         (oneOf ["spent"; "paid"; "cost"; "was"] ** Star space ** Group decimal)%re;
       ignoreCase := true; global := false |} ].

(** [match[1]] handed to [parseFloat]; an absent group reads as NaN. *)
Definition parsedAmountOf (m : State) : number :=
  match capture m with
  | Some s => JsNumber.parseFloat s
  | None => NaN
  end.

(** The test a parsed amount has to pass:
    [!isNaN(parsedAmount) && parsedAmount > 0]. *)
Definition acceptable (parsedAmount : number) : bool :=
  negb (JsNumber.isNaN parsedAmount)
  && JsNumber.gt parsedAmount (JsNumber.of_Z 0).

(** The loop over the patterns, left at the first acceptable amount;
    [None] is the initial [null]. *)
Fixpoint extractAmount (normalizedText : string) (patterns : list RegExp)
  : option number :=
  match patterns with
  | [] => None
  | pattern :: others =>
      match match_ normalizedText pattern with
      | Some m =>
          let parsedAmount := parsedAmountOf m in
          if acceptable parsedAmount then Some parsedAmount
          else extractAmount normalizedText others
      | None => extractAmount normalizedText others
      end
  end.

(** Description extraction - remove amount and common expense words *)
Definition strippingPatterns : list RegExp :=
  [ (* /(?:spent|paid|cost|was|for|i|bought|purchase|purchased)\s*/gi *)
    {| source :=
         (oneOf ["spent"; "paid"; "cost"; "was"; "for"; "i"; "bought";
                 "purchase"; "purchased"] ** Star space)%re;
       ignoreCase := true; global := true |};
    (* /\$?\d+(?:\.\d{2})?\s*(?:dollars?|bucks?)?/gi *)
    {| source :=
         (Opt (Char "$") ** Plus digit
          ** Opt (Char "." ** Class digit ** Class digit) ** Star space
          ** Opt (lit "dollar" ** Opt (Char "s") <|> lit "buck" ** Opt (Char "s")))%re;
       ignoreCase := true; global := true |};
    (* /(?:on|for)\s*/gi *)
    {| source := (oneOf ["on"; "for"] ** Star space)%re;
       ignoreCase := true; global := true |};
    (* /(?:this\s+(?:morning|afternoon|evening|night))/gi *)
    {| source :=
         (lit "this" ** Plus space
          ** oneOf ["morning"; "afternoon"; "evening"; "night"])%re;
       ignoreCase := true; global := true |};
    (* /(?:today|yesterday|earlier)/gi *)
    {| source := oneOf ["today"; "yesterday"; "earlier"];
       ignoreCase := true; global := true |} ].

Definition stripped (text : string) : string :=
  trim (fold_left (fun s re => replace s re "") strippingPatterns text).

(** /^(?:on|for|at)\s+/i *)
Definition leadingConnector : RegExp :=
  {| source := (Bol ** oneOf ["on"; "for"; "at"] ** Plus space)%re;
     ignoreCase := true; global := false |}.

(** /\s+/g *)
Definition whitespaceRun : RegExp :=
  {| source := Plus space; ignoreCase := false; global := true |}.

(** Clean up description *)
Definition cleaned (text : string) : string :=
  let description := stripped text in
  let description := replace description leadingConnector "" in
  trim (replace description whitespaceRun " ").

(** /^\$?\d+/ *)
Definition amountToken : RegExp :=
  {| source := (Bol ** Opt (Char "$") ** Plus digit)%re;
     ignoreCase := false; global := false |}.

Definition stopWords : list string :=
  [ "spent"; "paid"; "cost"; "was"; "for"; "on"; "i";
    "dollars"; "dollar"; "bucks"; "buck" ].

(** If description is too short or empty, try to extract from original
    text *)
Definition fromWords (text : string) : string :=
  let words :=
    filter
      (fun word =>
         negb (match match_ word amountToken with Some _ => true | None => false end)
         && negb (existsb (String.eqb (toLowerCase word)) stopWords))
      (split " " text) in
  trim (join " " words).

(** Capitalize first letter *)
Definition capitalize (description : string) : string :=
  toUpperCase (charAt description 0) ++ slice description 1.

Definition extractDescription (text : string) : string :=
  let description := cleaned text in
  let description :=
    if String.length description <? 2 then fromWords text else description in
  let description :=
    if String.length description <? 2 then "Expense" else description in
  capitalize description.

(** Date extraction (basic - defaults to today) *)
Definition extractDate (env : Env) (normalizedText : string) : Date :=
  let date := {| getTime := clockAtNewDate env |} in
  if includes normalizedText "yesterday"
  then {| getTime := clockAtDateNow env - 24 * 60 * 60 * 1000 |}
  else if includes normalizedText "this morning"
  then JsDate.setHours env date 9 0 0 0
  else if includes normalizedText "this afternoon"
  then JsDate.setHours env date 14 0 0 0
  else if includes normalizedText "this evening"
          || includes normalizedText "tonight"
  then JsDate.setHours env date 19 0 0 0
  else date.

Definition parseVoiceInput (env : Env) (text : value)
  : completion (option ParsedExpense) :=
  if negb (truthy text) || negb (String.eqb (typeof text) "string")
  then Normal None
  else
    string_method text
      (fun text =>
         let normalizedText := trim (toLowerCase text) in
         let amount := extractAmount normalizedText amountPatterns in
         match amount with
         | None => None
         | Some amount =>
             if negb (JsNumber.truthy amount) then None
             else
               Some {| amount := amount;
                       description := extractDescription text;
                       date := Some (extractDate env normalizedText) |}
         end).

(** The fields [validateParsedExpense] reads. *)
Definition validateParsedExpense (expense : value) : value :=
  and_then expense (fun _ =>
  and_then (VBool (String.eqb (typeof (get expense "amount")) "number")) (fun _ =>
  and_then (VBool (match get expense "amount" with
                   | VNumber a => JsNumber.gt a (JsNumber.of_Z 0)
                   | _ => false end)) (fun _ =>
  and_then (VBool (match get expense "amount" with
                   | VNumber a => JsNumber.lt a (JsNumber.of_Z 10000)
                   | _ => false end)) (fun _ =>
  and_then (VBool (String.eqb (typeof (get expense "description")) "string")) (fun _ =>
  and_then (VBool (match get (get expense "description") "length" with
                   | VNumber n => JsNumber.gt n (JsNumber.of_Z 0)
                   | _ => false end)) (fun _ =>
  VBool (match get (get expense "description") "length" with
         | VNumber n => JsNumber.lt n (JsNumber.of_Z 200)
         | _ => false end))))))).

(** ** categoryService.ts: display lookups *)

(** The property names an object literal inherits from [Object.prototype];
    reading one of them gives a function (the prototype itself for
    [__proto__]), a truthy value that is not a string. *)
Definition objectPrototypeProperties : list string :=
  [ "constructor"; "__defineGetter__"; "__defineSetter__"; "hasOwnProperty";
    "__lookupGetter__"; "__lookupSetter__"; "isPrototypeOf";
    "propertyIsEnumerable"; "toString"; "valueOf"; "__proto__";
    "toLocaleString" ].

(** [table[key]] on an object literal whose own properties are strings. *)
Definition member (table : list (string * string)) (key : string) : value :=
  match lookup key table with
  | Some s => VString s
  | None =>
      if existsb (String.eqb key) objectPrototypeProperties
      then VObject []
      else VUndefined
  end.

(** [a || b] *)
Definition or_else (a b : value) : value := if truthy a then a else b.

Definition icons : list (string * string) :=
  [ ("Food & Dining", "fas fa-utensils");
    ("Groceries", "fas fa-shopping-cart");
    ("Transportation", "fas fa-car");
    ("Entertainment", "fas fa-film");
    ("Shopping", "fas fa-shopping-bag");
    ("Utilities", "fas fa-bolt");
    ("Healthcare", "fas fa-heartbeat");
    ("Other", "fas fa-tag") ].

Definition getCategoryIcon (category : string) : value :=
  or_else (member icons category) (VString "fas fa-receipt").

Definition colors : list (string * string) :=
  [ ("Food & Dining", "bg-blue-100 text-blue-600");
    ("Groceries", "bg-green-100 text-green-600");
    ("Transportation", "bg-red-100 text-red-600");
    ("Entertainment", "bg-purple-100 text-purple-600");
    ("Shopping", "bg-pink-100 text-pink-600");
    ("Utilities", "bg-yellow-100 text-yellow-600");
    ("Healthcare", "bg-indigo-100 text-indigo-600");
    ("Other", "bg-gray-100 text-gray-600") ].

Definition getCategoryColor (category : string) : value :=
  or_else (member colors category) (VString "bg-gray-100 text-gray-600").

(** ** voiceService.ts: speech recognition errors *)

Record SpeechRecognitionErrorEvent : Type :=
  { error : string; message : option string }.

Definition handleSpeechError (event : SpeechRecognitionErrorEvent) : string :=
  if String.eqb (error event) "no-speech"
  then "No speech detected. Please try speaking again."
  else if String.eqb (error event) "audio-capture"
  then "Microphone access denied. Please check your permissions."
  else if String.eqb (error event) "not-allowed"
  then "Microphone access is required for voice input."
  else if String.eqb (error event) "network"
  then "Network error. Please check your connection and try again."
  else if String.eqb (error event) "aborted"
  then "Speech recognition was aborted."
  else if String.eqb (error event) "service-not-allowed"
  then "Speech recognition service is not allowed."
  else "Speech recognition failed. Please try again.".

(** ** The voice input component *)

Module VoiceInput.

(** The fields of the [ParsedExpense] of voiceService.ts, which the
    component's own interface of that name hides. *)
Definition parsedAmount : ParsedExpense -> number := amount.
Definition parsedDescription : ParsedExpense -> string := description.
Definition parsedDate : ParsedExpense -> option Date := date.

(** The component's own [ParsedExpense], with a category and a date that
    is not optional. *)
Record ParsedExpense : Type :=
  { amount : number;
    description : string;
    category : string;
    date : Date }.

Record Toast : Type :=
  { title : string;
    text : string;            (* [description] of the toast *)
    variant : option string }.

(** What a call of [processVoiceInput] leaves behind: the toast it shows
    and, when it gets that far, the argument of [setParsedExpense]; every
    path calls [setIsProcessing(false)]. *)
Record Outcome : Type :=
  { toast : Toast;
    setParsedExpense : option ParsedExpense }.

(** The message the component's [onerror] handler puts in its toast. *)
Definition onerrorMessage (event : SpeechRecognitionErrorEvent) : string :=
  let errorMessage := "Speech recognition failed. Please try again." in
  if String.eqb (error event) "no-speech"
  then "No speech detected. Please try speaking again."
  else if String.eqb (error event) "audio-capture"
  then "Microphone access denied. Please check your permissions."
  else if String.eqb (error event) "not-allowed"
  then "Microphone access is required for voice input."
  else errorMessage.

Definition couldNotParse : Outcome :=
  {| toast :=
       {| title := "Could not parse input";
          text := "I couldn't understand the expense details. Please try speaking more clearly or use manual entry.";
          variant := Some "destructive" |};
     setParsedExpense := None |}.

Definition processingError : Outcome :=
  {| toast :=
       {| title := "Processing Error";
          text := "Failed to process voice input. Please try again.";
          variant := Some "destructive" |};
     setParsedExpense := None |}.

Definition processed (expenseData : ParsedExpense) : Outcome :=
  {| toast :=
       {| title := "Voice input processed!";
          text := "Please confirm the expense details below.";
          variant := None |};
     setParsedExpense := Some expenseData |}.

(** [processVoiceInput]: the body of the [try] with the [catch] branch on
    a throw; [fallbackNow] is the clock at the [new Date()] of
    [parsed.date || new Date()]. *)
Definition processVoiceInput (env : Env) (fallbackNow : Z) (transcript : value)
  : Outcome :=
  match parseVoiceInput env transcript with
  | Throw _ => processingError
  | Normal None => couldNotParse
  | Normal (Some parsed) =>
      match categorizeExpense (VString (parsedDescription parsed)) with
      | Throw _ => processingError
      | Normal category =>
          processed
            {| amount := parsedAmount parsed;
               description := parsedDescription parsed;
               category := category;
               date := match parsedDate parsed with
                       | Some d => d
                       | None => {| getTime := fallbackNow |}
                       end |}
      end
  end.

End VoiceInput.

(** ** Vocabulary of the properties *)

(** The normalization of [categorizeExpense]. *)
Definition normalize (description : string) : string :=
  trim (toLowerCase description).

(** Some keyword of the category occurs in the normalized description. *)
Definition categoryMatches (normalizedDescription category : string) : bool :=
  anyKeyword normalizedDescription (keywordsOf category).

(** The score in the specification's words: the sum of the lengths of the
    keywords of the list that occur in the normalized input. *)
Definition matchedLengthSum (n : string) (keywords : list string) : nat :=
  list_sum
    (map String.length
       (filter (fun keyword => includes n (toLowerCase keyword)) keywords)).

(** Every category with its score, the categories of score zero left out. *)
Definition scoredCategories (n : string) : list Suggestion :=
  filter (fun sg => 0 <? score sg)
    (map (fun entry => {| category := fst entry;
                          score := matchedLengthSum n (snd entry) |})
       categoryKeywords).

(** The score of a category of the table. *)
Definition categoryScore (n : string) (c : string) : nat :=
  matchedLengthSum n (keywordsOf c).

Definition descending (a b : Suggestion) : Prop := score b <= score a.

(** What a pattern yields on the normalized text: the parsed value of
    group 1 of its leftmost match. *)
Definition yield (normalizedText : string) (pattern : RegExp) : option number :=
  match match_ normalizedText pattern with
  | Some m => Some (parsedAmountOf m)
  | None => None
  end.

Definition yieldsAcceptable (normalizedText : string) (pattern : RegExp) : bool :=
  match yield normalizedText pattern with
  | Some a => acceptable a
  | None => false
  end.

(** A strictly positive finite number. *)
Definition finitePositive (a : number) : bool :=
  JsNumber.isFinite a && JsNumber.gt a (JsNumber.of_Z 0).

Definition yieldsFinitePositive (normalizedText : string) (pattern : RegExp)
  : bool :=
  match yield normalizedText pattern with
  | Some a => finitePositive a
  | None => false
  end.

Definition sampleEnv : Env :=
  {| clockAtNewDate := 1700000000000;
     clockAtDateNow := 1700000000002;
     localTZA := -18000000 |}.

(** An amount beyond the range of the doubles: 2 followed by 308 zeros. *)
Definition overflowingUtterance : string :=
  "spent 2" ++
  "00000000000000000000000000000000000000000000000000000000000000000000000000000" ++
  "00000000000000000000000000000000000000000000000000000000000000000000000000000" ++
  "00000000000000000000000000000000000000000000000000000000000000000000000000000" ++
  "00000000000000000000000000000000000000000000000000000000000000000000000000000" ++
  " dollars".

(** The description before its first letter is capitalized. *)
Definition chosenDescription (text : string) : string :=
  let description := cleaned text in
  let description :=
    if String.length description <? 2 then fromWords text else description in
  if String.length description <? 2 then "Expense" else description.

(** A time zone: the offset of local time from UTC, in milliseconds, in
    effect at each instant (it changes where daylight saving begins or
    ends). *)
Record TimeZone : Type := { offsetAt : Z -> Z }.

(** The local clock time of a date in a zone, in milliseconds after
    midnight: the time within the day of [t + LocalTZA(t)]. *)
Definition clockTimeIn (zone : TimeZone) (d : Date) : Z :=
  JsDate.TimeWithinDay (getTime d + offsetAt zone (getTime d))%Z.

(** America/New_York between March 2023 and March 2024: daylight time,
    four hours behind UTC, until 2023-11-05T06:00:00Z, and standard time,
    five hours behind, from then on. *)
Definition newYork : TimeZone :=
  {| offsetAt := fun t => if (t <? 1699164000000)%Z
                          then (-14400000)%Z else (-18000000)%Z |}.

(** Noon in New York on 2023-11-05, the day daylight saving ended:
    2023-11-05T17:00:00Z. *)
Definition noonAfterTheChange : Env :=
  {| clockAtNewDate := 1699203600000;
     clockAtDateNow := 1699203600000;
     localTZA := -18000000 |}.

(** A code unit of the ASCII range, where the case mappings of this file
    are those of JavaScript. *)
Definition isAscii (c : ascii) : bool := code c <? 128.

(** ** Vocabulary of the further properties *)

(** Every character of the string passes the test. *)
Fixpoint allChars (P : ascii -> bool) (s : string) : bool :=
  match s with
  | EmptyString => true
  | String c s' => P c && allChars P s'
  end.

(** The letter i, in either case. *)
Definition isLetterI (c : ascii) : bool := Ascii.eqb (upper_char c) "I".

(** Neither a decimal digit nor the letter i. *)
Definition plainChar (c : ascii) : bool := negb (is_digit c) && negb (isLetterI c).

(** A pattern that can match the empty string. *)
Fixpoint nullable (r : regex) : bool :=
  match r with
  | Empty | Opt _ | Star _ => true
  | Cat r1 r2 => nullable r1 && nullable r2
  | Alt r1 r2 => nullable r1 || nullable r2
  | Group r1 => nullable r1
  | Char _ | Class _ | Bol | Eol => false
  end.

(** A final state [y] reached from [x]: the input consumed in between is
    [p], and the end index has advanced by its length. *)
Definition consumed (x y : State) (p : string) : Prop :=
  rest x = (p ++ rest y)%string /\ endIndex y = endIndex x + String.length p.

(** A pattern every match of which consumes a character passing [Q]. *)
Inductive Needs (Q : ascii -> bool) : regex -> Prop :=
| Needs_Class (p : ascii -> bool) :
    (forall c, p c = true -> Q c = true) -> Needs Q (Class p)
| Needs_Cat_l (r1 r2 : regex) : Needs Q r1 -> Needs Q (Cat r1 r2)
| Needs_Cat_r (r1 r2 : regex) : Needs Q r2 -> Needs Q (Cat r1 r2)
| Needs_Alt (r1 r2 : regex) : Needs Q r1 -> Needs Q r2 -> Needs Q (Alt r1 r2)
| Needs_Group (r : regex) : Needs Q r -> Needs Q (Group r).

(** The categories [categorizeExpense] scans before [c]. *)
Fixpoint scannedBefore (order : list string) (c : string) : list string :=
  match order with
  | [] => []
  | c' :: rest => if String.eqb c' c then [] else c' :: scannedBefore rest c
  end.

(** A keyword of [c] that contains a keyword of a category scanned
    before [c]. *)
Definition shadowed (c keyword : string) : bool :=
  existsb (fun c' => anyKeyword (toLowerCase keyword) (keywordsOf c'))
    (scannedBefore categoryOrder c).

Definition shadowedKeywords : list (string * string) :=
  flat_map
    (fun entry => map (fun keyword => (fst entry, keyword))
                    (filter (shadowed (fst entry)) (snd entry)))
    categoryKeywords.

(** A parsed expense as the object [validateParsedExpense] receives. *)
Definition asObject (e : ParsedExpense) : value :=
  VObject
    [ ("amount", VNumber (amount e));
      ("description", VString (description e));
      ("date", match date e with
               | Some _ => VObject []
               | None => VUndefined
               end) ].

(** The error codes [handleSpeechError] tells apart and the component's
    handler does not. *)
Definition unhandledByComponent : list string :=
  [ "network"; "aborted"; "service-not-allowed" ].

(** The number of leading characters that pass the test. *)
Fixpoint spanLength (p : ascii -> bool) (s : string) : nat :=
  match s with
  | String a s' => if p a then S (spanLength p s') else 0
  | EmptyString => 0
  end.

(** Every run of whitespace turned into one space; [inRun] tells that the
    character before was whitespace. *)
Fixpoint collapse (inRun : bool) (s : string) : string :=
  match s with
  | EmptyString => EmptyString
  | String a s' =>
      if is_space a
      then if inRun then collapse true s' else String " " (collapse true s')
      else String a (collapse false s')
  end.

(** Every whitespace character is a space and, when [strict], stands
    before a character that is not whitespace; without [strict] it may
    also end the string. *)
Fixpoint spacedOnce (strict : bool) (s : string) : bool :=
  match s with
  | EmptyString => true
  | String a s' =>
      (if is_space a
       then Ascii.eqb a " "
            && match s' with
               | String b _ => negb (is_space b)
               | EmptyString => negb strict
               end
       else true)
      && spacedOnce strict s'
  end.

(** No whitespace at either end, and single spaces between the words. *)
Definition wellSpaced (s : string) : bool :=
  match s with
  | String a _ => negb (is_space a)
  | EmptyString => true
  end
  && spacedOnce true s.

(** * Properties *)

(** ** The category classifier *)

Lemma anyKeyword_true_iff (n : string) (keywords : list string) :
  anyKeyword n keywords = true <->
  exists keyword, In keyword keywords /\ includes n (toLowerCase keyword) = true.
Proof.
  induction keywords as [|k rest IH]; simpl.
  - split; [discriminate | intros [? [[] _]]].
  - destruct (includes n (toLowerCase k)) eqn:E.
    + split; [intros _; exists k; auto | reflexivity].
    + rewrite IH. split.
      * intros [k' [Hin Hk']]. exists k'. auto.
      * intros [k' [[<- | Hin] Hk']]; [congruence | exists k'; auto].
Qed.

Lemma categorizeExpense_string (s : string) :
  s <> "" ->
  categorizeExpense (VString s) = Normal (bestCategory (normalize s) categoryOrder).
Proof.
  intros Hs. unfold categorizeExpense. simpl.
  destruct (String.eqb s "") eqn:E; [apply String.eqb_eq in E; contradiction|].
  reflexivity.
Qed.

Lemma categorizeExpense_not_string (v : value) :
  (forall s, v <> VString s) -> categorizeExpense v = Normal "Other".
Proof.
  intros Hv. destruct v as [| | b | n | s | props]; try reflexivity;
    try (unfold categorizeExpense; simpl; rewrite orb_true_r; reflexivity).
  exfalso. apply (Hv s). reflexivity.
Qed.

(** The scan returns the first category of the order that matches. *)
Lemma bestCategory_first_match (n : string) (order : list string) :
  forall i A,
    nth_error order i = Some A ->
    categoryMatches n A = true ->
    exists k C,
      k <= i /\ nth_error order k = Some C /\
      categoryMatches n C = true /\
      (forall j D, j < k -> nth_error order j = Some D ->
                   categoryMatches n D = false) /\
      bestCategory n order = C.
Proof.
  induction order as [|c rest IH]; intros i A Hi HA.
  - destruct i; discriminate.
  - simpl. destruct (anyKeyword n (keywordsOf c)) eqn:Hc.
    + exists 0, c. repeat split; auto with arith.
      intros j D Hj. inversion Hj.
    + destruct i as [|i].
      * simpl in Hi. injection Hi as ->.
        unfold categoryMatches in HA. congruence.
      * simpl in Hi. destruct (IH i A Hi HA) as (k & C & Hk & HC & Hm & Hbefore & Hbest).
        exists (S k), C. repeat split; auto with arith.
        intros [|j] D Hj HD.
        -- simpl in HD. injection HD as <-. exact Hc.
        -- simpl in HD. apply (Hbefore j D); [lia | exact HD].
Qed.

Lemma bestCategory_no_match (n : string) (order : list string) :
  (forall c, In c order -> categoryMatches n c = false) ->
  bestCategory n order = "Other".
Proof.
  induction order as [|c rest IH]; intros H; simpl; [reflexivity|].
  rewrite (H c (or_introl eq_refl) : anyKeyword n (keywordsOf c) = false).
  apply IH. intros c' Hc'. apply H. right. exact Hc'.
Qed.

Lemma bestCategory_in (n : string) (order : list string) :
  In (bestCategory n order) ("Other" :: order).
Proof.
  induction order as [|c rest IH]; simpl; [auto|].
  destruct (anyKeyword n (keywordsOf c)); [auto|].
  simpl in IH. destruct IH; auto.
Qed.

Lemma categoryOrder_NoDup : NoDup categoryOrder.
Proof.
  unfold categoryOrder.
  repeat (constructor; [simpl; intuition discriminate|]). constructor.
Qed.

Lemma categoryOrder_categories (c : string) :
  In c categoryOrder -> In c getAllCategories.
Proof.
  unfold categoryOrder, getAllCategories. simpl. intuition.
Qed.

Lemma nothing_matches_empty (c : string) :
  In c categoryOrder -> categoryMatches "" c = false.
Proof.
  unfold categoryOrder. simpl.
  intros H. repeat (destruct H as [<- | H]; [reflexivity|]). contradiction.
Qed.

(** C1, as stated, fails: "doctor shopping trip" has a Groceries keyword
    and a Shopping keyword (both through "shopping"), Groceries is above
    Shopping in the priority list, and the result is not Groceries. *)
Lemma categorizeExpense_pair_counterexample :
  nth_error categoryOrder 2 = Some "Groceries" /\
  nth_error categoryOrder 6 = Some "Shopping" /\
  categoryMatches (normalize "doctor shopping trip") "Groceries" = true /\
  categoryMatches (normalize "doctor shopping trip") "Shopping" = true /\
  categorizeExpense (VString "doctor shopping trip") <> Normal "Groceries".
Proof.
  repeat split; try reflexivity. vm_compute. discriminate.
Qed.

(** C1, amended: when the normalized input has a keyword of the category
    at position [i] of the priority list and one of the category at a
    later position [j], [categorizeExpense] returns the first category of
    the list with a matching keyword: it stands at position [i] or above,
    and is never the lower of the two.  "doctor shopping trip" is
    Healthcare. *)
Theorem categorizeExpense_highest_priority_match :
  (forall (s A B : string) (i j : nat),
      nth_error categoryOrder i = Some A ->
      nth_error categoryOrder j = Some B ->
      i < j ->
      categoryMatches (normalize s) A = true ->
      categoryMatches (normalize s) B = true ->
      exists C k,
        categorizeExpense (VString s) = Normal C /\
        nth_error categoryOrder k = Some C /\
        k <= i /\
        categoryMatches (normalize s) C = true /\
        (forall m D, m < k -> nth_error categoryOrder m = Some D ->
                     categoryMatches (normalize s) D = false) /\
        ((forall m D, m < i -> nth_error categoryOrder m = Some D ->
                      categoryMatches (normalize s) D = false) -> C = A) /\
        C <> B)
  /\ categorizeExpense (VString "doctor shopping trip") = Normal "Healthcare".
Proof.
  split; [|reflexivity].
  intros s A B i j Hi Hj Hij HA HB.
  assert (Hs : s <> "").
  { intros ->.
    assert (E : categoryMatches (normalize "") A = false)
      by (apply (nothing_matches_empty A); eapply nth_error_In; eauto).
    congruence. }
  destruct (bestCategory_first_match (normalize s) categoryOrder i A Hi HA)
    as (k & C & Hk & HC & Hm & Hbefore & Hbest).
  exists C, k. rewrite (categorizeExpense_string s Hs), Hbest.
  split; [reflexivity|]. split; [exact HC|]. split; [exact Hk|].
  split; [exact Hm|]. split; [exact Hbefore|]. split.
  - intros Habove.
    destruct (Nat.eq_dec k i) as [-> | Hne]; [congruence|].
    rewrite (Habove k C) in Hm; [discriminate | lia | exact HC].
  - intros ->.
    assert (k = j); [|lia].
    apply (proj1 (NoDup_nth_error categoryOrder) categoryOrder_NoDup).
    + apply nth_error_Some. congruence.
    + congruence.
Qed.

Lemma categorizeExpense_highest_priority_match_witness :
  exists C k,
    categorizeExpense (VString "gas bill at the pharmacy") = Normal C /\
    nth_error categoryOrder k = Some C /\
    k <= 1 /\
    categoryMatches (normalize "gas bill at the pharmacy") C = true /\
    (forall m D, m < k -> nth_error categoryOrder m = Some D ->
                 categoryMatches (normalize "gas bill at the pharmacy") D = false) /\
    ((forall m D, m < 1 -> nth_error categoryOrder m = Some D ->
                  categoryMatches (normalize "gas bill at the pharmacy") D = false) ->
     C = "Transportation") /\
    C <> "Utilities".
Proof.
  apply (proj1 categorizeExpense_highest_priority_match
           "gas bill at the pharmacy" "Transportation" "Utilities" 1 4);
    try reflexivity.
  apply Nat.ltb_lt. reflexivity.
Defined.

(** C2: [categorizeExpense] returns normally on every value, with one of
    the eight categories; on a string whose normalized form contains no
    keyword of any category it returns "Other". *)
Theorem categorizeExpense_total :
  (forall v : value,
      exists c, categorizeExpense v = Normal c /\ In c getAllCategories)
  /\ (forall s : string,
         (forall c keyword,
             In c getAllCategories -> In keyword (keywordsOf c) ->
             includes (normalize s) (toLowerCase keyword) = false) ->
         categorizeExpense (VString s) = Normal "Other")
  /\ getAllCategories =
       [ "Food & Dining"; "Groceries"; "Transportation"; "Entertainment";
         "Shopping"; "Utilities"; "Healthcare"; "Other" ]
  /\ categorizeExpense (VString "") = Normal "Other"
  /\ categorizeExpense (VString "   ") = Normal "Other"
  /\ categorizeExpense (VString "zzz nonsense qqq") = Normal "Other".
Proof.
  split; [|split; [|repeat split]].
  - intros v.
    assert (HO : In "Other" getAllCategories) by (simpl; intuition).
    destruct v as [| | b | n | s | props];
      try (exists "Other"; split; [ | exact HO];
           first [ reflexivity
                 | unfold categorizeExpense; simpl; rewrite orb_true_r;
                   reflexivity ]).
    destruct (string_dec s "") as [-> | Hs].
    + exists "Other". split; [reflexivity | exact HO].
    + rewrite (categorizeExpense_string s Hs). eexists. split; [reflexivity|].
      destruct (bestCategory_in (normalize s) categoryOrder) as [<- | H];
        [exact HO | apply categoryOrder_categories; exact H].
  - intros s H.
    destruct (string_dec s "") as [-> | Hs]; [reflexivity|].
    rewrite (categorizeExpense_string s Hs). f_equal.
    apply bestCategory_no_match. intros c Hc.
    unfold categoryMatches.
    destruct (anyKeyword (normalize s) (keywordsOf c)) eqn:E; [|reflexivity].
    apply anyKeyword_true_iff in E. destruct E as (keyword & Hin & Hk).
    rewrite (H c keyword (categoryOrder_categories c Hc) Hin) in Hk.
    discriminate.
Qed.

Lemma categorizeExpense_total_witness :
  categorizeExpense (VString "zzz nonsense qqq") = Normal "Other".
Proof.
  apply (proj1 (proj2 categorizeExpense_total) "zzz nonsense qqq").
  intros c keyword Hc.
  simpl in Hc.
  repeat (destruct Hc as [<- | Hc];
          [ intros Hk; simpl in Hk;
            repeat (destruct Hk as [<- | Hk]; [reflexivity|]); contradiction |]).
  contradiction.
Defined.

(** ** Category suggestions *)

Lemma keywordScore_from (n : string) (keywords : list string) (acc : nat) :
  fold_left
    (fun score keyword =>
       if includes n (toLowerCase keyword)
       then score + String.length keyword else score)
    keywords acc
  = acc + matchedLengthSum n keywords.
Proof.
  unfold matchedLengthSum.
  revert acc. induction keywords as [|k rest IH]; intros acc; simpl.
  - lia.
  - rewrite IH. destruct (includes n (toLowerCase k)); simpl; lia.
Qed.

Lemma keywordScore_spec (n : string) (keywords : list string) :
  keywordScore n keywords = matchedLengthSum n keywords.
Proof. unfold keywordScore. rewrite keywordScore_from. reflexivity. Qed.

Lemma collectSuggestions_from (n : string) (entries : list (string * list string))
  (acc : list Suggestion) :
  fold_left
    (fun suggestions entry =>
       let score := keywordScore n (snd entry) in
       if 0 <? score
       then suggestions ++ [ {| category := fst entry; score := score |} ]
       else suggestions)
    entries acc
  = acc ++
    filter (fun sg => 0 <? score sg)
      (map (fun entry => {| category := fst entry;
                            score := matchedLengthSum n (snd entry) |})
         entries).
Proof.
  revert acc. induction entries as [|e rest IH]; intros acc; simpl.
  - rewrite app_nil_r. reflexivity.
  - rewrite IH, keywordScore_spec.
    destruct (0 <? matchedLengthSum n (snd e)); [|reflexivity].
    rewrite <- app_assoc. reflexivity.
Qed.

Lemma collectSuggestions_spec (n : string) :
  collectSuggestions n categoryKeywords = scoredCategories n.
Proof.
  unfold collectSuggestions, scoredCategories.
  rewrite collectSuggestions_from. apply app_nil_l.
Qed.

Section SortFacts.
Context {A : Type} (compare : A -> A -> Z).

Lemma insertSorted_perm (a : A) (l : list A) :
  Permutation (insertSorted compare a l) (a :: l).
Proof.
  induction l as [|b l IH]; simpl; [reflexivity|].
  destruct (compare a b <=? 0)%Z; [reflexivity|].
  rewrite IH. apply perm_swap.
Qed.

Lemma sort_perm (l : list A) : Permutation (sort compare l) l.
Proof.
  induction l as [|a l IH]; simpl; [reflexivity|].
  rewrite insertSorted_perm. constructor. exact IH.
Qed.
End SortFacts.

Lemma insertSorted_descending (a : Suggestion) (l : list Suggestion) :
  StronglySorted descending l ->
  StronglySorted descending (insertSorted byScoreDescending a l).
Proof.
  induction l as [|b l IH]; intros Hl; simpl.
  - constructor; constructor.
  - inversion Hl as [|? ? Hl' Hb]; subst.
    destruct (byScoreDescending a b <=? 0)%Z eqn:E.
    + apply Z.leb_le in E. unfold byScoreDescending in E.
      constructor; [exact Hl|].
      constructor; [unfold descending; lia|].
      eapply Forall_impl; [|exact Hb].
      unfold descending. intros x Hx. lia.
    + apply Z.leb_gt in E. unfold byScoreDescending in E.
      constructor; [apply IH; exact Hl'|].
      apply Forall_forall. intros x Hx.
      apply (Permutation_in _ (insertSorted_perm byScoreDescending a l)) in Hx.
      destruct Hx as [<- | Hx].
      * unfold descending. lia.
      * rewrite Forall_forall in Hb. apply Hb. exact Hx.
Qed.

Lemma sort_descending (l : list Suggestion) :
  StronglySorted descending (sort byScoreDescending l).
Proof.
  induction l as [|a l IH]; simpl; [constructor|].
  apply insertSorted_descending. exact IH.
Qed.

Lemma StronglySorted_firstn {A : Type} (R : A -> A -> Prop) (k : nat) (l : list A) :
  StronglySorted R l -> StronglySorted R (firstn k l).
Proof.
  revert k. induction l as [|a l IH]; intros [|k] Hl; simpl; try constructor.
  - apply IH. inversion Hl; assumption.
  - inversion Hl as [|? ? _ Ha]; subst.
    rewrite Forall_forall in *. intros x Hx. apply Ha.
    rewrite <- (firstn_skipn k l). apply in_or_app. left. exact Hx.
Qed.

Lemma StronglySorted_app_cross {A : Type} (R : A -> A -> Prop) (l1 l2 : list A) :
  StronglySorted R (l1 ++ l2) ->
  forall a b, In a l1 -> In b l2 -> R a b.
Proof.
  induction l1 as [|x l1 IH]; intros H a b Ha Hb; [destruct Ha|].
  simpl in H. inversion H as [|? ? Hrest Hx]; subst.
  destruct Ha as [<- | Ha].
  - rewrite Forall_forall in Hx. apply Hx. apply in_or_app. right. exact Hb.
  - apply IH; assumption.
Qed.

Lemma StronglySorted_map_in {A B : Type} (R : A -> A -> Prop) (R' : B -> B -> Prop)
  (f : A -> B) (l : list A) :
  (forall a b, In a l -> In b l -> R a b -> R' (f a) (f b)) ->
  StronglySorted R l -> StronglySorted R' (map f l).
Proof.
  induction l as [|a l IH]; intros Hf Hl; simpl; [constructor|].
  inversion Hl as [|? ? Hl' Ha]; subst.
  constructor.
  - apply IH; [|exact Hl']. intros x y Hx Hy. apply Hf; right; assumption.
  - rewrite Forall_forall in *. intros y Hy.
    apply in_map_iff in Hy. destruct Hy as (x & <- & Hx).
    apply Hf; [left; reflexivity | right; exact Hx | apply Ha; exact Hx].
Qed.

Lemma keywordsOf_entry (entry : string * list string) :
  In entry categoryKeywords -> keywordsOf (fst entry) = snd entry.
Proof.
  unfold categoryKeywords. intros H. simpl in H.
  repeat (destruct H as [<- | H]; [reflexivity|]). contradiction.
Qed.

Lemma scoredCategories_in (n : string) (sg : Suggestion) :
  In sg (scoredCategories n) <->
  In (category sg) getAllCategories /\
  score sg = categoryScore n (category sg) /\ 0 < score sg.
Proof.
  unfold scoredCategories, categoryScore, getAllCategories.
  rewrite filter_In, in_map_iff, Nat.ltb_lt. split.
  - intros [(e & <- & He) Hpos]. cbn [category score] in *.
    rewrite (keywordsOf_entry e He). repeat split; auto.
    apply in_map. exact He.
  - intros (Hc & Hs & Hpos). split; [|exact Hpos].
    apply in_map_iff in Hc. destruct Hc as (e & Hfst & He).
    exists e. split; [|exact He].
    destruct sg as [c sc]. cbn [category score] in *. subst c.
    rewrite Hs, (keywordsOf_entry e He). reflexivity.
Qed.

Lemma getSuggestedCategories_long (s : string) :
  2 <= String.length s ->
  getSuggestedCategories s =
  map category
    (firstn 3 (sort byScoreDescending (scoredCategories (toLowerCase s)))).
Proof.
  intros H. unfold getSuggestedCategories.
  assert (E : negb (truthy (VString s)) || (String.length s <? 2) = false).
  { apply orb_false_iff. split; [|apply Nat.ltb_ge; exact H].
    destruct s; [simpl in H; lia | reflexivity]. }
  rewrite E, collectSuggestions_spec. reflexivity.
Qed.

Lemma getSuggestedCategories_short (s : string) :
  String.length s < 2 -> getSuggestedCategories s = getAllCategories.
Proof.
  intros H. unfold getSuggestedCategories.
  apply Nat.ltb_lt in H. rewrite H, orb_true_r. reflexivity.
Qed.

(** C7, as stated, fails: a one-character input gets the eight categories. *)
Lemma getSuggestedCategories_short_counterexample :
  ~ (List.length (getSuggestedCategories "a") <= 3).
Proof. vm_compute. lia. Qed.

(** C7, amended: on every input of length at least 2,
    [getSuggestedCategories] returns at most 3 category names, in
    descending order of score, and no category left out scores more than
    a returned one; on every shorter input it returns the eight
    categories in table order. *)
Theorem getSuggestedCategories_at_most_three (s : string) :
  (2 <= String.length s ->
   let n := toLowerCase s in
   List.length (getSuggestedCategories s) <= 3 /\
   StronglySorted (fun c1 c2 => categoryScore n c2 <= categoryScore n c1)
     (getSuggestedCategories s) /\
   (forall c r,
       In c getAllCategories ->
       ~ In c (getSuggestedCategories s) ->
       In r (getSuggestedCategories s) ->
       categoryScore n c <= categoryScore n r))
  /\ (String.length s < 2 ->
      getSuggestedCategories s = getAllCategories /\
      List.length (getSuggestedCategories s) = 8).
Proof.
  split.
  - intros Hlen n. rewrite (getSuggestedCategories_long s Hlen). fold n.
    set (ranked := sort byScoreDescending (scoredCategories n)).
    assert (Hperm : Permutation ranked (scoredCategories n))
      by apply sort_perm.
    assert (Hsorted : StronglySorted descending ranked)
      by apply sort_descending.
    assert (Hin : forall sg, In sg ranked ->
                             score sg = categoryScore n (category sg)).
    { intros sg Hsg. apply (Permutation_in _ Hperm) in Hsg.
      apply scoredCategories_in in Hsg. tauto. }
    assert (Hfirst : forall sg, In sg (firstn 3 ranked) -> In sg ranked).
    { intros sg Hsg. rewrite <- (firstn_skipn 3 ranked).
      apply in_or_app. left. exact Hsg. }
    repeat split.
    + rewrite length_map. apply firstn_le_length.
    + apply (StronglySorted_map_in descending).
      * intros a b Ha Hb Hab. unfold descending in Hab.
        rewrite <- (Hin a (Hfirst a Ha)), <- (Hin b (Hfirst b Hb)). exact Hab.
      * apply StronglySorted_firstn. exact Hsorted.
    + intros c r Hc Hnot Hr.
      apply in_map_iff in Hr. destruct Hr as (sr & <- & Hsr).
      rewrite <- (Hin sr (Hfirst sr Hsr)).
      destruct (Nat.eq_dec (categoryScore n c) 0) as [-> | Hpos]; [lia|].
      set (sc := {| category := c; score := categoryScore n c |}).
      assert (Hsc : In sc ranked).
      { apply (Permutation_in _ (Permutation_sym Hperm)).
        apply scoredCategories_in. simpl. repeat split; [exact Hc | lia]. }
      rewrite <- (firstn_skipn 3 ranked) in Hsc, Hsorted.
      apply in_app_or in Hsc. destruct Hsc as [Hsc | Hsc].
      * exfalso. apply Hnot. apply in_map_iff. exists sc. split; auto.
      * exact (StronglySorted_app_cross descending _ _ Hsorted sr sc Hsr Hsc).
  - intros Hlen. rewrite (getSuggestedCategories_short s Hlen).
    split; reflexivity.
Qed.

Lemma getSuggestedCategories_at_most_three_witness :
  List.length (getSuggestedCategories "coffee shopping bill") <= 3 /\
  getSuggestedCategories "a" = getAllCategories.
Proof.
  assert (Hlong : 2 <= String.length "coffee shopping bill")
    by (apply Nat.leb_le; reflexivity).
  assert (Hshort : String.length "a" < 2)
    by (apply Nat.ltb_lt; reflexivity).
  split.
  - exact (proj1 (proj1 (getSuggestedCategories_at_most_three
                           "coffee shopping bill") Hlong)).
  - exact (proj1 (proj2 (getSuggestedCategories_at_most_three "a") Hshort)).
Defined.

(** C8: on every input of length at least 2, the score of a category is
    the sum of the lengths of its keywords that occur in the lowercased
    input; the categories of score zero are left out, the others ranked
    in descending order of score, and the first three of the ranking
    returned, each one a category of the table.  "coffee shopping bill"
    gets Groceries (8), Shopping (8), Food & Dining (6). *)
Theorem getSuggestedCategories_ranking :
  (forall s : string,
      2 <= String.length s ->
      let n := toLowerCase s in
      exists ranked : list Suggestion,
        Permutation ranked (scoredCategories n) /\
        StronglySorted descending ranked /\
        getSuggestedCategories s = map category (firstn 3 ranked) /\
        List.length (getSuggestedCategories s) <= 3 /\
        Forall (fun c => In c getAllCategories /\ 0 < categoryScore n c)
          (getSuggestedCategories s))
  /\ (forall n keywords, keywordScore n keywords = matchedLengthSum n keywords)
  /\ getSuggestedCategories "coffee shopping bill"
     = [ "Groceries"; "Shopping"; "Food & Dining" ]
  /\ map (categoryScore "coffee shopping bill")
       (getSuggestedCategories "coffee shopping bill")
     = [ 8; 8; 6 ].
Proof.
  split; [|split; [exact keywordScore_spec | split; vm_compute; reflexivity]].
  intros s Hlen n.
  exists (sort byScoreDescending (scoredCategories n)).
  rewrite (getSuggestedCategories_long s Hlen). fold n.
  repeat split.
  - apply sort_perm.
  - apply sort_descending.
  - rewrite length_map. apply firstn_le_length.
  - apply Forall_forall. intros c Hc.
    apply in_map_iff in Hc. destruct Hc as (sg & <- & Hsg).
    assert (Hin : In sg (scoredCategories n)).
    { apply (Permutation_in _ (sort_perm byScoreDescending _)).
      rewrite <- (firstn_skipn 3 (sort _ _)). apply in_or_app. left. exact Hsg. }
    apply scoredCategories_in in Hin. destruct Hin as (H1 & H2 & H3).
    split; [exact H1 | lia].
Qed.

Lemma getSuggestedCategories_ranking_witness :
  exists ranked : list Suggestion,
    Permutation ranked (scoredCategories "coffee shopping bill") /\
    StronglySorted descending ranked /\
    getSuggestedCategories "coffee shopping bill"
    = map category (firstn 3 ranked) /\
    List.length (getSuggestedCategories "coffee shopping bill") <= 3 /\
    Forall (fun c => In c getAllCategories /\
                     0 < categoryScore "coffee shopping bill" c)
      (getSuggestedCategories "coffee shopping bill").
Proof.
  assert (Hlong : 2 <= String.length "coffee shopping bill")
    by (apply Nat.leb_le; reflexivity).
  exact (proj1 getSuggestedCategories_ranking "coffee shopping bill" Hlong).
Defined.

(** ** The utterance parser *)

Lemma Qltb_lt (a b : Q) : JsNumber.Qltb a b = true <-> (a < b)%Q.
Proof. unfold JsNumber.Qltb, Qlt. apply Z.ltb_lt. Qed.

Lemma gt_zero_iff (a : number) :
  JsNumber.gt a (JsNumber.of_Z 0) = true <->
  a = PosInf \/ exists q, a = Finite q /\ (0 < q)%Q.
Proof.
  destruct a as [| | |q]; simpl.
  - split; [discriminate | intros [H | (q & H & _)]; discriminate].
  - split; [auto | reflexivity].
  - split; [discriminate | intros [H | (q & H & _)]; discriminate].
  - rewrite Qltb_lt. split.
    + intros H. right. exists q. auto.
    + intros [H | (q' & H & Hq)]; [discriminate|]. injection H as ->. exact Hq.
Qed.

Lemma acceptable_iff (a : number) :
  acceptable a = true <-> a = PosInf \/ exists q, a = Finite q /\ (0 < q)%Q.
Proof.
  unfold acceptable. rewrite andb_true_iff, gt_zero_iff. split.
  - tauto.
  - intros H. split; [|exact H].
    destruct H as [-> | (q & -> & _)]; reflexivity.
Qed.

Lemma acceptable_truthy (a : number) :
  acceptable a = true -> JsNumber.truthy a = true.
Proof.
  rewrite acceptable_iff. intros [-> | (q & -> & Hq)]; [reflexivity|].
  simpl. unfold Qlt in Hq. simpl in Hq.
  destruct (Qnum q =? 0)%Z eqn:E; [|reflexivity].
  apply Z.eqb_eq in E. rewrite E in Hq. lia.
Qed.

(** The loop returns the amount of the first pattern that yields an
    acceptable one, and [None] when no pattern does. *)
Lemma extractAmount_first (n : string) (patterns : list RegExp) :
  match extractAmount n patterns with
  | Some a =>
      exists k pattern m,
        nth_error patterns k = Some pattern /\
        match_ n pattern = Some m /\
        parsedAmountOf m = a /\
        acceptable a = true /\
        (forall j earlier, j < k -> nth_error patterns j = Some earlier ->
                           yieldsAcceptable n earlier = false)
  | None =>
      forall pattern, In pattern patterns -> yieldsAcceptable n pattern = false
  end.
Proof.
  induction patterns as [|p rest IH]; simpl.
  - intros ? [].
  - assert (Hskip :
      yieldsAcceptable n p = false ->
      match extractAmount n rest with
      | Some a =>
          exists k pattern m,
            nth_error (p :: rest) k = Some pattern /\
            match_ n pattern = Some m /\
            parsedAmountOf m = a /\
            acceptable a = true /\
            (forall j earlier, j < k ->
                               nth_error (p :: rest) j = Some earlier ->
                               yieldsAcceptable n earlier = false)
      | None =>
          forall pattern, p = pattern \/ In pattern rest ->
                          yieldsAcceptable n pattern = false
      end).
    { intros Hp. destruct (extractAmount n rest) as [a|].
      - destruct IH as (k & q & m & Hk & Hm & Ha & Hacc & Hbefore).
        exists (S k), q, m. repeat split; auto.
        intros [|j] earlier Hj He; simpl in He.
        + injection He as <-. exact Hp.
        + apply (Hbefore j); [lia | exact He].
      - intros q [<- | Hq]; [exact Hp | apply IH; exact Hq]. }
    unfold yieldsAcceptable, yield in Hskip.
    destruct (match_ n p) as [m|] eqn:Hm; [|apply Hskip; reflexivity].
    destruct (acceptable (parsedAmountOf m)) eqn:Hacc; [|apply Hskip; reflexivity].
    exists 0, p, m. repeat split; auto.
    intros j earlier Hj. lia.
Qed.

Lemma parseVoiceInput_string (env : Env) (s : string) :
  s <> "" ->
  parseVoiceInput env (VString s) =
  Normal
    match extractAmount (normalize s) amountPatterns with
    | None => None
    | Some a =>
        if negb (JsNumber.truthy a) then None
        else Some {| amount := a;
                     description := extractDescription s;
                     date := Some (extractDate env (normalize s)) |}
    end.
Proof.
  intros Hs. unfold parseVoiceInput, truthy, typeof, string_method.
  destruct (String.eqb s "") eqn:E; [apply String.eqb_eq in E; contradiction|].
  reflexivity.
Qed.

Lemma parseVoiceInput_not_string (env : Env) (v : value) :
  (forall s, v <> VString s) -> parseVoiceInput env v = Normal None.
Proof.
  intros Hv. unfold parseVoiceInput.
  destruct v as [| | b | n | s | props]; try reflexivity;
    try (simpl; rewrite orb_true_r; reflexivity).
  exfalso. apply (Hv s). reflexivity.
Qed.

Lemma parseVoiceInput_returns (env : Env) (v : value) :
  exists r, parseVoiceInput env v = Normal r.
Proof.
  destruct v as [| | b | n | s | props];
    try (eexists; apply parseVoiceInput_not_string; intros; discriminate).
  destruct (string_dec s "") as [-> | Hs]; [exists None; reflexivity|].
  rewrite (parseVoiceInput_string env s Hs). eexists. reflexivity.
Qed.

(** A successful parse, taken apart. *)
Lemma parseVoiceInput_some (env : Env) (v : value) (e : ParsedExpense) :
  parseVoiceInput env v = Normal (Some e) ->
  exists s,
    v = VString s /\ s <> "" /\
    extractAmount (normalize s) amountPatterns = Some (amount e) /\
    description e = extractDescription s /\
    date e = Some (extractDate env (normalize s)).
Proof.
  intros H.
  destruct v as [| | b | n | s | props];
    try (rewrite parseVoiceInput_not_string in H by (intros; discriminate);
         discriminate).
  exists s. destruct (string_dec s "") as [-> | Hs]; [discriminate|].
  rewrite (parseVoiceInput_string env s Hs) in H.
  destruct (extractAmount (normalize s) amountPatterns) as [a|]; [|discriminate].
  destruct (negb (JsNumber.truthy a)); [discriminate|].
  injection H as <-. simpl. auto.
Qed.

(** C3, as stated, fails: on [overflowingUtterance] no pattern yields a
    strictly positive finite number (three yield Infinity, one does not
    match), and the parse succeeds, with the amount Infinity. *)
Lemma parseVoiceInput_overflow_counterexample :
  forallb (fun pattern =>
             negb (yieldsFinitePositive (normalize overflowingUtterance) pattern))
    amountPatterns = true /\
  map (yield (normalize overflowingUtterance)) amountPatterns
  = [ Some PosInf; None; Some PosInf; Some PosInf ] /\
  parseVoiceInput sampleEnv (VString overflowingUtterance)
  = Normal (Some {| amount := PosInf;
                    description := "Expense";
                    date := Some {| getTime := clockAtNewDate sampleEnv |} |}) /\
  parseVoiceInput sampleEnv (VString overflowingUtterance) <> Normal None.
Proof.
  repeat split; try (vm_compute; reflexivity).
  vm_compute. discriminate.
Qed.

(** C3, amended: [parseVoiceInput] returns normally on every value; on a
    string for which no amount pattern yields a number that is not NaN
    and is strictly positive (Infinity included) it returns null; and a
    result carries the amount of the first pattern of [amountPatterns]
    that yields such a number, no earlier pattern yielding one. *)
Theorem parseVoiceInput_amount_or_null :
  (forall env v, exists r, parseVoiceInput env v = Normal r)
  /\ (forall env s,
         (forall pattern, In pattern amountPatterns ->
                          yieldsAcceptable (normalize s) pattern = false) ->
         parseVoiceInput env (VString s) = Normal None)
  /\ (forall env s e,
         parseVoiceInput env (VString s) = Normal (Some e) ->
         exists k pattern m,
           nth_error amountPatterns k = Some pattern /\
           match_ (normalize s) pattern = Some m /\
           parsedAmountOf m = amount e /\
           acceptable (amount e) = true /\
           (forall j earlier,
               j < k -> nth_error amountPatterns j = Some earlier ->
               yieldsAcceptable (normalize s) earlier = false))
  /\ (forall env s pattern,
         In pattern amountPatterns ->
         yieldsAcceptable (normalize s) pattern = true ->
         exists e, parseVoiceInput env (VString s) = Normal (Some e))
  /\ (forall a,
         acceptable a = true <->
         a = PosInf \/ exists q, a = Finite q /\ (0 < q)%Q)
  /\ List.length amountPatterns = 4.
Proof.
  split; [exact parseVoiceInput_returns|].
  split; [|split; [|split; [|split; [exact acceptable_iff | reflexivity]]]].
  - intros env s Hnone.
    destruct (string_dec s "") as [-> | Hs]; [reflexivity|].
    rewrite (parseVoiceInput_string env s Hs). f_equal.
    pose proof (extractAmount_first (normalize s) amountPatterns) as H.
    destruct (extractAmount (normalize s) amountPatterns) as [a|]; [|reflexivity].
    destruct H as (k & p & m & Hk & Hm & Ha & Hacc & _).
    apply nth_error_In in Hk. specialize (Hnone p Hk).
    unfold yieldsAcceptable, yield in Hnone. rewrite Hm, Ha in Hnone.
    congruence.
  - intros env s e H.
    apply parseVoiceInput_some in H.
    destruct H as (s' & Hv & _ & Ha & _). injection Hv as <-.
    pose proof (extractAmount_first (normalize s) amountPatterns) as H.
    rewrite Ha in H. exact H.
  - intros env s pattern Hin Hyes.
    assert (Hs : s <> "").
    { intros ->. revert Hyes. simpl in Hin.
      repeat (destruct Hin as [<- | Hin]; [vm_compute; discriminate|]).
      contradiction. }
    rewrite (parseVoiceInput_string env s Hs).
    pose proof (extractAmount_first (normalize s) amountPatterns) as H.
    destruct (extractAmount (normalize s) amountPatterns) as [a|].
    + destruct H as (_ & _ & _ & _ & _ & _ & Hacc & _).
      rewrite (acceptable_truthy a Hacc). eexists. reflexivity.
    + rewrite (H pattern Hin) in Hyes. discriminate.
Qed.

Lemma parseVoiceInput_amount_or_null_witness :
  parseVoiceInput sampleEnv (VString "thanks for nothing") = Normal None /\
  (exists k pattern m,
      nth_error amountPatterns k = Some pattern /\
      match_ (normalize "Coffee was 4.50") pattern = Some m /\
      parsedAmountOf m = Finite (9 # 2) /\
      acceptable (Finite (9 # 2)) = true /\
      (forall j earlier,
          j < k -> nth_error amountPatterns j = Some earlier ->
          yieldsAcceptable (normalize "Coffee was 4.50") earlier = false)) /\
  (exists e, parseVoiceInput sampleEnv (VString "I paid $30 for gas") = Normal (Some e)).
Proof.
  split; [|split].
  - apply (proj1 (proj2 parseVoiceInput_amount_or_null)
             sampleEnv "thanks for nothing").
    intros pattern Hp. simpl in Hp.
    repeat (destruct Hp as [<- | Hp]; [vm_compute; reflexivity|]).
    contradiction.
  - exact (proj1 (proj2 (proj2 parseVoiceInput_amount_or_null))
             sampleEnv "Coffee was 4.50"
             {| amount := Finite (9 # 2);
                description := "Coffee";
                date := Some {| getTime := clockAtNewDate sampleEnv |} |}
             eq_refl).
  - apply (proj1 (proj2 (proj2 (proj2 parseVoiceInput_amount_or_null)))
             sampleEnv "I paid $30 for gas"
             (nth 1 amountPatterns
                {| source := Empty; ignoreCase := false; global := false |})).
    + right. left. reflexivity.
    + vm_compute. reflexivity.
Defined.

(** C9: on every value that is not a string (null, undefined, a boolean,
    a number, an object) [parseVoiceInput] returns null and
    [categorizeExpense] returns "Other", both normally. *)
Theorem malformed_input_fallback (env : Env) (v : value) :
  (forall s, v <> VString s) ->
  parseVoiceInput env v = Normal None /\ categorizeExpense v = Normal "Other".
Proof.
  intros Hv. split.
  - apply parseVoiceInput_not_string. exact Hv.
  - apply categorizeExpense_not_string. exact Hv.
Qed.

Lemma malformed_input_fallback_witness :
  (parseVoiceInput sampleEnv VNull = Normal None /\
   categorizeExpense VNull = Normal "Other") /\
  (parseVoiceInput sampleEnv VUndefined = Normal None /\
   categorizeExpense VUndefined = Normal "Other") /\
  (parseVoiceInput sampleEnv (VNumber (JsNumber.of_Z 42)) = Normal None /\
   categorizeExpense (VNumber (JsNumber.of_Z 42)) = Normal "Other").
Proof.
  repeat apply conj.
  - apply (malformed_input_fallback sampleEnv VNull). intros s. discriminate.
  - apply (malformed_input_fallback sampleEnv VNull). intros s. discriminate.
  - apply (malformed_input_fallback sampleEnv VUndefined). intros s. discriminate.
  - apply (malformed_input_fallback sampleEnv VUndefined). intros s. discriminate.
  - apply (malformed_input_fallback sampleEnv (VNumber (JsNumber.of_Z 42))).
    intros s. discriminate.
  - apply (malformed_input_fallback sampleEnv (VNumber (JsNumber.of_Z 42))).
    intros s. discriminate.
Defined.

(** ** Dates *)

Section Dates.
Local Open Scope Z_scope.
Import JsDate.

Lemma clockTime_setHours (env : Env) (d : Date) (hour min sec ms : Z) :
  0 <= MakeTime hour min sec ms < msPerDay ->
  clockTime env (setHours env d hour min sec ms) = MakeTime hour min sec ms.
Proof.
  intros H. unfold clockTime, setHours, LocalTime, UTC, MakeDate, TimeWithinDay.
  cbn [getTime].
  set (day := Day (getTime d + localTZA env)).
  set (t := MakeTime hour min sec ms) in *.
  replace (day * msPerDay + t - localTZA env + localTZA env)
    with (t + day * msPerDay) by lia.
  rewrite Z.mod_add by (unfold msPerDay; lia).
  apply Z.mod_small. exact H.
Qed.

Lemma clockTimeIn_day_before (zone : TimeZone) (t : Z) :
  clockTimeIn zone {| getTime := t - 24 * 60 * 60 * 1000 |}
  = TimeWithinDay
      (clockTimeIn zone {| getTime := t |}
       + (offsetAt zone (t - 24 * 60 * 60 * 1000) - offsetAt zone t)).
Proof.
  unfold clockTimeIn, TimeWithinDay. cbn [getTime].
  rewrite Z.add_mod_idemp_l by (unfold msPerDay; lia).
  replace (t + offsetAt zone t
           + (offsetAt zone (t - 24 * 60 * 60 * 1000) - offsetAt zone t))
    with (t - 24 * 60 * 60 * 1000 + offsetAt zone (t - 24 * 60 * 60 * 1000)
          + 1 * msPerDay) by (unfold msPerDay; lia).
  rewrite Z.mod_add by (unfold msPerDay; lia). reflexivity.
Qed.

Lemma clockTimeIn_same_offset (zone : TimeZone) (t : Z) :
  offsetAt zone (t - 24 * 60 * 60 * 1000) = offsetAt zone t ->
  clockTimeIn zone {| getTime := t - 24 * 60 * 60 * 1000 |}
  = clockTimeIn zone {| getTime := t |}.
Proof.
  intros E. rewrite clockTimeIn_day_before, E, Z.sub_diag, Z.add_0_r.
  unfold clockTimeIn, TimeWithinDay.
  apply Z.mod_mod. unfold msPerDay. lia.
Qed.

Lemma extractDate_yesterday (env : Env) (n : string) :
  includes n "yesterday" = true ->
  extractDate env n = {| getTime := clockAtDateNow env - 24 * 60 * 60 * 1000 |}.
Proof. intros H. unfold extractDate. rewrite H. reflexivity. Qed.

Lemma extractDate_this_morning (env : Env) (n : string) :
  includes n "yesterday" = false ->
  includes n "this morning" = true ->
  extractDate env n = setHours env {| getTime := clockAtNewDate env |} 9 0 0 0.
Proof. intros H1 H2. unfold extractDate. rewrite H1, H2. reflexivity. Qed.
End Dates.

(** C5: "Spent 25 dollars on coffee this morning" parses to the amount 25,
    a description that starts with "Coffee" and contains none of "spent",
    "dollars", "this morning", and a date whose local clock time is
    09:00:00.000. *)
Theorem parseVoiceInput_coffee_this_morning (env : Env) :
  exists e d,
    parseVoiceInput env (VString "Spent 25 dollars on coffee this morning")
    = Normal (Some e) /\
    amount e = Finite 25 /\
    description e = "Coffee ths mornng" /\
    startsWith (description e) "Coffee" = true /\
    includes (toLowerCase (description e)) "spent" = false /\
    includes (toLowerCase (description e)) "dollars" = false /\
    includes (toLowerCase (description e)) "this morning" = false /\
    date e = Some d /\
    JsDate.clockTime env d = JsDate.MakeTime 9 0 0 0 /\
    JsDate.MakeTime 9 0 0 0 = (9 * 60 * 60 * 1000)%Z.
Proof.
  set (text := "Spent 25 dollars on coffee this morning").
  assert (Ha : extractAmount (normalize text) amountPatterns = Some (Finite 25))
    by (vm_compute; reflexivity).
  assert (Hd : extractDescription text = "Coffee ths mornng")
    by (vm_compute; reflexivity).
  assert (Hy : includes (normalize text) "yesterday" = false)
    by (vm_compute; reflexivity).
  assert (Hm : includes (normalize text) "this morning" = true)
    by (vm_compute; reflexivity).
  eexists. eexists. split.
  - rewrite parseVoiceInput_string by discriminate.
    rewrite Ha, Hd, (extractDate_this_morning env _ Hy Hm). reflexivity.
  - cbn [amount description date]. repeat split.
    apply clockTime_setHours. unfold JsDate.MakeTime, JsDate.msPerDay. lia.
Qed.

(** C6, as stated, fails: at noon in New York on 2023-11-05, the day
    daylight saving ended, "Paid $30 for gas yesterday" is dated 24 hours
    before the clock reading, which is 13:00 local time there, not
    12:00. *)
Lemma parseVoiceInput_yesterday_dst_counterexample :
  includes (normalize "Paid $30 for gas yesterday") "yesterday" = true /\
  parseVoiceInput noonAfterTheChange (VString "Paid $30 for gas yesterday")
  = Normal (Some {| amount := Finite 30;
                    description := "Gas";
                    date := Some {| getTime := 1699117200000 |} |}) /\
  1699117200000%Z = (clockAtDateNow noonAfterTheChange - 24 * 60 * 60 * 1000)%Z /\
  clockTimeIn newYork {| getTime := clockAtDateNow noonAfterTheChange |}
  = (12 * 3600000)%Z /\
  clockTimeIn newYork {| getTime := 1699117200000 |} = (13 * 3600000)%Z /\
  clockTimeIn newYork {| getTime := 1699117200000 |}
  <> clockTimeIn newYork {| getTime := clockAtDateNow noonAfterTheChange |}.
Proof.
  repeat split; try (vm_compute; reflexivity).
  vm_compute. discriminate.
Qed.

(** C6, amended: when the normalized input contains "yesterday", the date
    of a successful parse is the reading of [Date.now()] less 24 hours,
    whatever time-of-day phrase the input also contains; in every time
    zone its local clock time is that of the reading shifted by the
    change of the zone's offset between the two instants, so it is the
    same clock time when the offset is the same at both.  "Paid $30 for
    gas yesterday" parses to the amount 30 at that date. *)
Theorem parseVoiceInput_yesterday :
  (forall env s e,
      includes (normalize s) "yesterday" = true ->
      parseVoiceInput env (VString s) = Normal (Some e) ->
      exists d,
        date e = Some d /\
        getTime d = (clockAtDateNow env - 24 * 60 * 60 * 1000)%Z /\
        (forall zone,
            clockTimeIn zone d
            = JsDate.TimeWithinDay
                (clockTimeIn zone {| getTime := clockAtDateNow env |}
                 + (offsetAt zone (getTime d)
                    - offsetAt zone (clockAtDateNow env)))%Z) /\
        (forall zone,
            offsetAt zone (getTime d) = offsetAt zone (clockAtDateNow env) ->
            clockTimeIn zone d
            = clockTimeIn zone {| getTime := clockAtDateNow env |}))
  /\ (forall env,
         parseVoiceInput env (VString "Paid $30 for gas yesterday")
         = Normal (Some {| amount := Finite 30;
                           description := "Gas";
                           date := Some {| getTime :=
                                   (clockAtDateNow env - 24 * 60 * 60 * 1000)%Z |} |})).
Proof.
  split.
  - intros env s e Hy H.
    apply parseVoiceInput_some in H.
    destruct H as (s' & Hv & _ & _ & _ & Hd). injection Hv as <-.
    rewrite (extractDate_yesterday env _ Hy) in Hd.
    eexists. split; [exact Hd|]. split; [reflexivity|]. split.
    + intros zone. apply clockTimeIn_day_before.
    + intros zone. apply clockTimeIn_same_offset.
  - intros env.
    set (text := "Paid $30 for gas yesterday").
    assert (Ha : extractAmount (normalize text) amountPatterns = Some (Finite 30))
      by (vm_compute; reflexivity).
    assert (Hd : extractDescription text = "Gas") by (vm_compute; reflexivity).
    assert (Hy : includes (normalize text) "yesterday" = true)
      by (vm_compute; reflexivity).
    rewrite parseVoiceInput_string by discriminate.
    rewrite Ha, Hd, (extractDate_yesterday env _ Hy). reflexivity.
Qed.

(** "yesterday" together with "this morning": the date is a day before
    the clock reading, not 09:00. *)
Lemma parseVoiceInput_yesterday_witness :
  exists d,
    Some {| getTime := 1699913600002 |} = Some d /\
    getTime d = (clockAtDateNow sampleEnv - 24 * 60 * 60 * 1000)%Z /\
    (forall zone,
        clockTimeIn zone d
        = JsDate.TimeWithinDay
            (clockTimeIn zone {| getTime := clockAtDateNow sampleEnv |}
             + (offsetAt zone (getTime d)
                - offsetAt zone (clockAtDateNow sampleEnv)))%Z) /\
    (forall zone,
        offsetAt zone (getTime d) = offsetAt zone (clockAtDateNow sampleEnv) ->
        clockTimeIn zone d
        = clockTimeIn zone {| getTime := clockAtDateNow sampleEnv |}).
Proof.
  exact (proj1 parseVoiceInput_yesterday sampleEnv
           "Lunch was 12 dollars yesterday this morning"
           {| amount := Finite 12;
              description := "Lunch ths mornng";
              date := Some {| getTime := 1699913600002 |} |}
           eq_refl eq_refl).
Defined.

(** ** Validation *)

Lemma length_gt_zero (d : string) :
  JsNumber.gt (JsNumber.of_Z (Z.of_nat (String.length d))) (JsNumber.of_Z 0) = true
  <-> 1 <= String.length d.
Proof.
  unfold JsNumber.gt, JsNumber.of_Z, JsNumber.lt. rewrite Qltb_lt.
  unfold Qlt. simpl. lia.
Qed.

Lemma length_lt_200 (d : string) :
  JsNumber.lt (JsNumber.of_Z (Z.of_nat (String.length d))) (JsNumber.of_Z 200) = true
  <-> String.length d < 200.
Proof.
  unfold JsNumber.of_Z, JsNumber.lt. rewrite Qltb_lt.
  unfold Qlt. simpl. lia.
Qed.

Lemma lt_10000_iff (a : number) :
  JsNumber.gt a (JsNumber.of_Z 0) = true ->
  (JsNumber.lt a (JsNumber.of_Z 10000) = true <->
   exists q, a = Finite q /\ (q < 10000)%Q).
Proof.
  intros Hpos. destruct a as [| | |q]; simpl in *; try discriminate.
  - split; [discriminate | intros (q & H & _); discriminate].
  - rewrite Qltb_lt. split.
    + intros H. exists q. auto.
    + intros (q' & H & Hq). injection H as ->. exact Hq.
Qed.

Lemma validateParsedExpense_object (props : list (string * value)) :
  validateParsedExpense (VObject props) = VBool true <->
  exists a d,
    lookup "amount" props = Some (VNumber a) /\
    JsNumber.gt a (JsNumber.of_Z 0) = true /\
    JsNumber.lt a (JsNumber.of_Z 10000) = true /\
    lookup "description" props = Some (VString d) /\
    JsNumber.gt (JsNumber.of_Z (Z.of_nat (String.length d))) (JsNumber.of_Z 0) = true /\
    JsNumber.lt (JsNumber.of_Z (Z.of_nat (String.length d))) (JsNumber.of_Z 200) = true.
Proof.
  unfold validateParsedExpense, and_then. cbn [truthy get].
  destruct (lookup "amount" props) as [[| | b | a | s | ps]|];
    try (cbn; split; [discriminate | intros (? & ? & ? & _); discriminate]).
  cbn [typeof]. change (String.eqb "number" "number") with true. cbn iota.
  destruct (JsNumber.gt a (JsNumber.of_Z 0)) eqn:Hgt; cbn iota;
    [|split; [discriminate | intros (? & ? & H & H' & _); congruence]].
  destruct (JsNumber.lt a (JsNumber.of_Z 10000)) eqn:Hlt; cbn iota;
    [|split; [discriminate | intros (? & ? & H & _ & H' & _); congruence]].
  destruct (lookup "description" props) as [[| | b | n | d | ps]|];
    try (cbn; split; [discriminate | intros (? & ? & _ & _ & _ & ? & _); discriminate]).
  cbn [typeof get]. change (String.eqb "string" "string") with true.
  change (String.eqb "length" "length") with true. cbn iota.
  destruct (JsNumber.gt (JsNumber.of_Z (Z.of_nat (String.length d)))
              (JsNumber.of_Z 0)) eqn:Hd1; cbn iota.
  - split.
    + intros H. injection H as H. exists a, d. repeat split; auto.
    + intros (a' & d' & Ha & _ & _ & Hd & _ & H).
      injection Hd as <-. rewrite H. reflexivity.
  - split; [discriminate|].
    intros (a' & d' & _ & _ & _ & Hd & H & _). injection Hd as <-. congruence.
Qed.

Lemma validateParsedExpense_primitive (expense : value) :
  (forall props, expense <> VObject props) ->
  validateParsedExpense expense <> VBool true.
Proof.
  intros H. unfold validateParsedExpense, and_then.
  destruct expense as [| | b | n | s | props]; try discriminate.
  - destruct b; cbn; discriminate.
  - destruct (truthy (VNumber n)); cbn; discriminate.
  - destruct (truthy (VString s)); cbn; discriminate.
  - exfalso. apply (H props). reflexivity.
Qed.

(** C4: [validateParsedExpense] returns true exactly on the objects whose
    [amount] is a number strictly between 0 and 10000 and whose
    [description] is a string of length at least 1 and less than 200;
    false on the amount 10000 with description "x", true on 9999.99. *)
Theorem validateParsedExpense_iff :
  (forall expense : value,
      validateParsedExpense expense = VBool true <->
      exists props q d,
        expense = VObject props /\
        lookup "amount" props = Some (VNumber (Finite q)) /\
        (0 < q)%Q /\ (q < 10000)%Q /\
        lookup "description" props = Some (VString d) /\
        1 <= String.length d /\ String.length d < 200)
  /\ validateParsedExpense
       (VObject [ ("amount", VNumber (JsNumber.of_Z 10000));
                  ("description", VString "x") ]) = VBool false
  /\ validateParsedExpense
       (VObject [ ("amount", VNumber (JsNumber.parseFloat "9999.99"));
                  ("description", VString "x") ]) = VBool true.
Proof.
  split; [|split; vm_compute; reflexivity].
  intros expense. split.
  - intros H.
    destruct expense as [| | b | n | s | props];
      try (exfalso; revert H; apply validateParsedExpense_primitive;
           intros; discriminate).
    apply validateParsedExpense_object in H.
    destruct H as (a & d & Ha & Hgt & Hlt & Hd & Hd1 & Hd2).
    apply (lt_10000_iff a Hgt) in Hlt. destruct Hlt as (q & -> & Hq).
    apply gt_zero_iff in Hgt.
    destruct Hgt as [Hgt | (q' & Hq' & Hpos)]; [discriminate|].
    injection Hq' as <-.
    exists props, q, d. repeat split; auto.
    + apply length_gt_zero. exact Hd1.
    + apply length_lt_200. exact Hd2.
  - intros (props & q & d & -> & Ha & Hpos & Hq & Hd & Hd1 & Hd2).
    apply validateParsedExpense_object.
    assert (Hgt : JsNumber.gt (Finite q) (JsNumber.of_Z 0) = true)
      by (apply gt_zero_iff; right; exists q; auto).
    exists (Finite q), d. repeat split; auto.
    + apply (lt_10000_iff _ Hgt). exists q. auto.
    + apply length_gt_zero. exact Hd1.
    + apply length_lt_200. exact Hd2.
Qed.

(** ** The shape of a parsed expense *)

Lemma upper_char_idempotent (c : ascii) : upper_char (upper_char c) = upper_char c.
Proof. destruct c as [[] [] [] [] [] [] [] []]; reflexivity. Qed.

Lemma capitalize_cons (c : ascii) (tail : string) :
  capitalize (String c tail) = String (upper_char c) tail.
Proof. reflexivity. Qed.

Lemma capitalize_shape (d : string) :
  2 <= String.length d ->
  2 <= String.length (capitalize d) /\
  exists c tail, capitalize d = String c tail /\ upper_char c = c.
Proof.
  destruct d as [|c tail]; simpl String.length; [lia|].
  intros H. rewrite capitalize_cons. split; [exact H|].
  exists (upper_char c), tail. split; [reflexivity | apply upper_char_idempotent].
Qed.

Lemma extractDescription_chosen (text : string) :
  extractDescription text = capitalize (chosenDescription text).
Proof. reflexivity. Qed.

Lemma chosenDescription_length (text : string) :
  2 <= String.length (chosenDescription text).
Proof.
  unfold chosenDescription.
  destruct (String.length (cleaned text) <? 2);
    match goal with
    | |- context [String.length ?d <? 2] =>
        destruct (String.length d <? 2) eqn:E;
        [simpl; lia | apply Nat.ltb_ge in E; exact E]
    end.
Qed.

Lemma chosenDescription_fallback (text : string) :
  String.length (cleaned text) < 2 ->
  String.length (fromWords text) < 2 ->
  chosenDescription text = "Expense".
Proof.
  intros H1 H2. unfold chosenDescription.
  apply Nat.ltb_lt in H1, H2. rewrite H1, H2. reflexivity.
Qed.

(** C10, as stated, fails: on "spent 5 on iii" stripping leaves the empty
    string, and the description is rebuilt from the words of the input,
    not replaced by "Expense". *)
Lemma parseVoiceInput_fallback_counterexample :
  cleaned "spent 5 on iii" = "" /\
  String.length (cleaned "spent 5 on iii") < 2 /\
  fromWords "spent 5 on iii" = "iii" /\
  parseVoiceInput sampleEnv (VString "spent 5 on iii")
  = Normal (Some {| amount := Finite 5;
                    description := "Iii";
                    date := Some {| getTime := clockAtNewDate sampleEnv |} |}) /\
  "Iii" <> "Expense".
Proof.
  repeat split; try (vm_compute; reflexivity).
  - apply Nat.ltb_lt. vm_compute. reflexivity.
  - discriminate.
Qed.

(** C10, amended: a result of [parseVoiceInput] has a strictly positive
    amount, a description of length at least 2 whose first character is
    its own uppercase, equal to "Expense" when both stripping and the
    rebuilding from the words of the input leave fewer than 2
    characters, and a date that is present. *)
Theorem parseVoiceInput_result_shape (env : Env) (v : value) (e : ParsedExpense) :
  parseVoiceInput env v = Normal (Some e) ->
  (amount e = PosInf \/ exists q, amount e = Finite q /\ (0 < q)%Q) /\
  2 <= String.length (description e) /\
  (exists c tail, description e = String c tail /\ upper_char c = c) /\
  (exists s,
      v = VString s /\
      (String.length (cleaned s) < 2 ->
       String.length (fromWords s) < 2 ->
       description e = "Expense")) /\
  (exists d, date e = Some d).
Proof.
  intros H. apply parseVoiceInput_some in H.
  destruct H as (s & -> & Hs & Ha & Hd & Hdate).
  pose proof (extractAmount_first (normalize s) amountPatterns) as Hfirst.
  rewrite Ha in Hfirst. destruct Hfirst as (_ & _ & _ & _ & _ & _ & Hacc & _).
  rewrite Hd, extractDescription_chosen.
  destruct (capitalize_shape _ (chosenDescription_length s)) as [Hlen Hshape].
  repeat split.
  - apply acceptable_iff. exact Hacc.
  - exact Hlen.
  - exact Hshape.
  - exists s. split; [reflexivity|]. intros H1 H2.
    rewrite (chosenDescription_fallback s H1 H2). reflexivity.
  - eexists. exact Hdate.
Qed.

Lemma parseVoiceInput_result_shape_witness :
  (Finite (9 # 2) = PosInf \/ exists q, Finite (9 # 2) = Finite q /\ (0 < q)%Q) /\
  2 <= String.length "Coffee" /\
  (exists c tail, "Coffee" = String c tail /\ upper_char c = c) /\
  (exists s,
      VString "Coffee was 4.50" = VString s /\
      (String.length (cleaned s) < 2 ->
       String.length (fromWords s) < 2 ->
       "Coffee" = "Expense")) /\
  (exists d, Some {| getTime := clockAtNewDate sampleEnv |} = Some d).
Proof.
  exact (parseVoiceInput_result_shape sampleEnv (VString "Coffee was 4.50")
           {| amount := Finite (9 # 2);
              description := "Coffee";
              date := Some {| getTime := clockAtNewDate sampleEnv |} |}
           eq_refl).
Defined.

(** * Further properties *)

(** ** The matcher *)

Lemma allChars_app (P : ascii -> bool) (a b : string) :
  allChars P (a ++ b)%string = allChars P a && allChars P b.
Proof.
  induction a as [|c a IH]; simpl; [reflexivity|].
  rewrite IH, andb_assoc. reflexivity.
Qed.

Lemma append_assoc (a b c : string) : ((a ++ b) ++ c = a ++ (b ++ c))%string.
Proof. induction a as [|x a IH]; simpl; [reflexivity | rewrite IH; reflexivity]. Qed.

Lemma append_empty_r (a : string) : (a ++ "" = a)%string.
Proof. induction a as [|x a IH]; simpl; [reflexivity | rewrite IH; reflexivity]. Qed.

Lemma length_append (a b : string) :
  String.length (a ++ b)%string = String.length a + String.length b.
Proof. induction a as [|x a IH]; simpl; [reflexivity | rewrite IH; reflexivity]. Qed.

Lemma consumed_refl (x : State) : consumed x x "".
Proof. split; [reflexivity | simpl; lia]. Qed.

Lemma consumed_trans (x y z : State) (p q : string) :
  consumed x y p -> consumed y z q -> consumed x z (p ++ q)%string.
Proof.
  intros [H1 H2] [H3 H4]. split.
  - rewrite H1, H3, append_assoc. reflexivity.
  - rewrite H4, H2, length_append. lia.
Qed.

Section MatcherFacts.
Variable icase : bool.

Lemma star_reaches (p : ascii -> bool) (c : Continuation) (z : State) :
  forall s i cap,
    star p s i cap c = Some z ->
    exists y q,
      c y = Some z /\
      consumed {| endIndex := i; rest := s; capture := cap |} y q.
Proof.
  induction s as [|a s IH]; intros i cap H; simpl in H.
  - eexists. exists "". split; [exact H | apply consumed_refl].
  - destruct (p a).
    + destruct (star p s (S i) cap c) as [z'|] eqn:E.
      * injection H as <-. destruct (IH _ _ E) as (y & q & Hc & Hq1 & Hq2).
        exists y, (String a q). split; [exact Hc|].
        simpl in Hq1, Hq2. split; simpl; [rewrite Hq1; reflexivity | lia].
      * eexists. exists "". split; [exact H | apply consumed_refl].
    + eexists. exists "". split; [exact H | apply consumed_refl].
Qed.

(** Whatever the matcher returns went through its continuation, at a
    state further in the input. *)
Lemma matcher_reaches (r : regex) :
  forall (x : State) (c : Continuation) (z : State),
    matcher icase r x c = Some z ->
    exists y q, c y = Some z /\ consumed x y q.
Proof.
  induction r as [| ch | p | r1 IH1 r2 IH2 | r1 IH1 r2 IH2 | r1 IH1 | p
                 | r1 IH1 | |]; intros x c z H; simpl in H.
  - exists x, "". split; [exact H | apply consumed_refl].
  - destruct (rest x) as [|a s'] eqn:E; [discriminate|].
    destruct (Ascii.eqb _ _); [|discriminate].
    exists (advance x s'), (String a ""). split; [exact H|].
    split; simpl; [exact E | lia].
  - destruct (rest x) as [|a s'] eqn:E; [discriminate|].
    destruct (p a); [|discriminate].
    exists (advance x s'), (String a ""). split; [exact H|].
    split; simpl; [exact E | lia].
  - destruct (IH1 _ _ _ H) as (y1 & q1 & H1 & Hq1).
    destruct (IH2 _ _ _ H1) as (y2 & q2 & H2 & Hq2).
    exists y2, (q1 ++ q2)%string. split; [exact H2|].
    eapply consumed_trans; eauto.
  - destruct (matcher icase r1 x c) as [z'|] eqn:E.
    + injection H as <-. apply IH1. exact E.
    + apply IH2. exact H.
  - destruct (matcher icase r1 x _) as [z'|] eqn:E.
    + injection H as <-. destruct (IH1 _ _ _ E) as (y & q & Hc & Hq).
      destruct (endIndex y =? endIndex x); [discriminate|].
      exists y, q. split; assumption.
    + exists x, "". split; [exact H | apply consumed_refl].
  - destruct x as [i s cap]. simpl in H. exact (star_reaches p c z s i cap H).
  - destruct (IH1 _ _ _ H) as (y & q & Hc & Hq1 & Hq2).
    eexists. exists q. split; [exact Hc|]. split; simpl; assumption.
  - destruct (endIndex x =? 0); [|discriminate].
    exists x, "". split; [exact H | apply consumed_refl].
  - destruct (rest x) eqn:E; [|discriminate].
    exists x, "". split; [exact H | apply consumed_refl].
Qed.

Lemma matchAt_consumed (r : regex) (s : string) (i : nat) (y : State) :
  matchAt icase r s i = Some y ->
  exists q, s = (q ++ rest y)%string /\ endIndex y = i + String.length q.
Proof.
  intros H. unfold matchAt in H.
  destruct (matcher_reaches r _ _ _ H) as (y' & q & Hy & Hq1 & Hq2).
  injection Hy as ->. exists q. split; assumption.
Qed.

Lemma star_succeeds (p : ascii -> bool) (c : Continuation) :
  forall s i cap,
    c {| endIndex := i; rest := s; capture := cap |} <> None ->
    star p s i cap c <> None.
Proof.
  intros s i cap H. destruct s as [|a s]; simpl; [exact H|].
  destruct (p a); [|exact H].
  destruct (star p s (S i) cap c); [discriminate | exact H].
Qed.

(** A nullable pattern succeeds wherever its continuation does. *)
Lemma nullable_succeeds (r : regex) :
  nullable r = true ->
  forall (x : State) (c : Continuation),
    (forall cap, c {| endIndex := endIndex x; rest := rest x; capture := cap |}
                 <> None) ->
    matcher icase r x c <> None.
Proof.
  induction r as [| ch | p | r1 IH1 r2 IH2 | r1 IH1 r2 IH2 | r1 IH1 | p
                 | r1 IH1 | |]; intros Hn x c Hc; simpl in *;
    try discriminate.
  - destruct x as [i s cap]. apply Hc.
  - apply andb_true_iff in Hn. destruct Hn as [Hn1 Hn2].
    apply IH1; [exact Hn1|]. intros cap.
    apply IH2; [exact Hn2|]. simpl. exact Hc.
  - destruct (matcher icase r1 x c) eqn:E; [discriminate|].
    destruct (nullable r1); [exfalso; revert E; apply IH1; auto|].
    apply IH2; [exact Hn | exact Hc].
  - destruct (matcher icase r1 x _); [discriminate|].
    destruct x as [i s cap]. apply Hc.
  - destruct x as [i s cap]. apply star_succeeds. apply Hc.
  - apply IH1; [exact Hn|]. intros cap. simpl. apply Hc.
Qed.

Lemma nullable_matchAt (r : regex) (s : string) (i : nat) :
  nullable r = true ->
  exists y, matchAt icase r s i = Some y /\ i <= endIndex y.
Proof.
  intros Hn. unfold matchAt.
  destruct (matcher icase r {| endIndex := i; rest := s; capture := None |} Some)
    as [y|] eqn:E.
  - exists y. split; [reflexivity|].
    destruct (matchAt_consumed r s i y E) as (q & _ & Hq). lia.
  - exfalso. revert E. apply nullable_succeeds; [exact Hn|].
    intros cap. discriminate.
Qed.
End MatcherFacts.

(** ** Replacement *)

Section ReplaceFacts.
Variable icase : bool.

Lemma replaceEach_allChars (P : ascii -> bool) (r : regex) (w : string) :
  allChars P w = true ->
  forall s i skip,
    allChars P s = true ->
    allChars P (replaceEach icase r w s i skip) = true.
Proof.
  intros Hw. induction s as [|a s IH]; intros i skip Hs.
  - destruct skip; simpl; [|reflexivity].
    destruct (matchAt icase r "" i) as [y|]; [|reflexivity].
    rewrite allChars_app, Hw. destruct (endIndex y - i); reflexivity.
  - simpl in Hs. apply andb_true_iff in Hs. destruct Hs as [Ha Hs].
    destruct skip; simpl; [|apply IH; exact Hs].
    destruct (matchAt icase r (String a s) i) as [y|].
    + rewrite allChars_app, Hw. simpl.
      destruct (endIndex y - i); simpl; [rewrite Ha|]; apply IH; exact Hs.
    + simpl. rewrite Ha. apply IH. exact Hs.
Qed.

(** When the pattern matches, on at least one character, wherever a
    character passing [Q] stands, no such character is left. *)
Lemma replaceEach_removes (Q : ascii -> bool) (r : regex) (w : string) :
  (forall a s' i,
      Q a = true ->
      exists y, matchAt icase r (String a s') i = Some y /\ i < endIndex y) ->
  allChars (fun c => negb (Q c)) w = true ->
  forall s i skip,
    allChars (fun c => negb (Q c)) (replaceEach icase r w s i skip) = true.
Proof.
  intros Hmatch Hw. induction s as [|a s IH]; intros i skip.
  - destruct skip; simpl; [|reflexivity].
    destruct (matchAt icase r "" i) as [y|]; [|reflexivity].
    rewrite allChars_app, Hw. destruct (endIndex y - i); reflexivity.
  - destruct skip; simpl; [|apply IH].
    destruct (Q a) eqn:HQ.
    + destruct (Hmatch a s i HQ) as (y & -> & Hy).
      rewrite allChars_app, Hw. simpl.
      destruct (endIndex y - i) eqn:E; [lia|]. apply IH.
    + destruct (matchAt icase r (String a s) i) as [y|].
      * rewrite allChars_app, Hw. simpl.
        destruct (endIndex y - i); simpl; [rewrite HQ|]; apply IH.
      * simpl. rewrite HQ. apply IH.
Qed.

Lemma search_consumed (r : regex) :
  forall s i j y,
    search icase r s i = Some (j, y) ->
    exists pre q,
      s = (pre ++ q ++ rest y)%string /\ j = i + String.length pre.
Proof.
  induction s as [|a s IH]; intros i j y H; simpl in H.
  - destruct (matchAt icase r "" i) as [y'|] eqn:E; [|discriminate].
    injection H as <- <-.
    destruct (matchAt_consumed icase r _ _ _ E) as (q & Hq & _).
    exists "", q. split; [exact Hq | simpl; lia].
  - destruct (matchAt icase r (String a s) i) as [y'|] eqn:E.
    + injection H as <- <-.
      destruct (matchAt_consumed icase r _ _ _ E) as (q & Hq & _).
      exists "", q. split; [exact Hq | simpl; lia].
    + destruct (IH _ _ _ H) as (pre & q & Hs & Hj).
      exists (String a pre), q. split; [rewrite Hs; reflexivity | simpl; lia].
Qed.
End ReplaceFacts.

Lemma substring_prefix (pre t : string) :
  substring 0 (String.length pre) (pre ++ t) = pre.
Proof.
  induction pre as [|a pre IH]; simpl.
  - destruct t; reflexivity.
  - rewrite IH. reflexivity.
Qed.

Lemma replace_allChars (P : ascii -> bool) (s : string) (re : RegExp) (w : string) :
  allChars P w = true -> allChars P s = true ->
  allChars P (replace s re w) = true.
Proof.
  intros Hw Hs. unfold replace. destruct (global re).
  - apply replaceEach_allChars; assumption.
  - destruct (search (ignoreCase re) (source re) s 0) as [[j y]|] eqn:E;
      [|exact Hs].
    destruct (search_consumed _ _ _ _ _ _ E) as (pre & q & Hpre & Hj).
    simpl in Hj. subst j. rewrite Hpre at 1. rewrite substring_prefix.
    rewrite Hpre, !allChars_app in Hs.
    apply andb_true_iff in Hs. destruct Hs as [H1 H2].
    apply andb_true_iff in H2. destruct H2 as [_ H3].
    rewrite !allChars_app, H1, Hw, H3. reflexivity.
Qed.

Lemma trimStart_allChars (P : ascii -> bool) (s : string) :
  allChars P s = true -> allChars P (trimStart s) = true.
Proof.
  induction s as [|a s IH]; simpl; [reflexivity|].
  intros H. destruct (is_space a); [|exact H].
  apply andb_true_iff in H. apply IH. tauto.
Qed.

Lemma trimEnd_allChars (P : ascii -> bool) (s : string) :
  allChars P s = true -> allChars P (trimEnd s) = true.
Proof.
  induction s as [|a s IH]; simpl; [reflexivity|].
  intros H. apply andb_true_iff in H. destruct H as [Ha Hs].
  specialize (IH Hs). destruct (trimEnd s).
  - destruct (is_space a); simpl; [reflexivity | rewrite Ha; reflexivity].
  - simpl in *. rewrite Ha. exact IH.
Qed.

Lemma trim_allChars (P : ascii -> bool) (s : string) :
  allChars P s = true -> allChars P (trim s) = true.
Proof. intros H. apply trimEnd_allChars, trimStart_allChars, H. Qed.

(** ** What stripping removes *)

Lemma allChars_and (P Q : ascii -> bool) (s : string) :
  allChars (fun c => P c && Q c) s = allChars P s && allChars Q s.
Proof.
  induction s as [|a s IH]; simpl; [reflexivity|].
  rewrite IH. destruct (P a), (Q a), (allChars P s); reflexivity.
Qed.

Lemma replace_removes (Q : ascii -> bool) (s : string) (re : RegExp) (w : string) :
  global re = true ->
  (forall a s' i,
      Q a = true ->
      exists y, matchAt (ignoreCase re) (source re) (String a s') i = Some y /\
                i < endIndex y) ->
  allChars (fun c => negb (Q c)) w = true ->
  allChars (fun c => negb (Q c)) (replace s re w) = true.
Proof.
  intros Hg Hmatch Hw. unfold replace. rewrite Hg.
  apply replaceEach_removes; assumption.
Qed.

Lemma isLetterI_cases (a : ascii) :
  isLetterI a = true -> a = "i"%char \/ a = "I"%char.
Proof.
  destruct a as [[] [] [] [] [] [] [] []]; intros H;
    try discriminate H; auto.
Qed.

(** The first stripping pattern matches at every letter i. *)
Lemma action_words_match_letter_i (a : ascii) (s' : string) (i : nat) :
  isLetterI a = true ->
  exists y,
    matchAt true
      (oneOf ["spent"; "paid"; "cost"; "was"; "for"; "i"; "bought";
              "purchase"; "purchased"] ** Star space)%re
      (String a s') i = Some y /\
    i < endIndex y.
Proof.
  intros Ha.
  destruct (nullable_matchAt true (Star space) s' (S i) eq_refl)
    as (y & Hy & Hle).
  exists y. split; [|lia].
  unfold matchAt in *. simpl in Hy.
  destruct (isLetterI_cases a Ha) as [-> | ->]; simpl; rewrite Hy; reflexivity.
Qed.

(** The second stripping pattern matches at every digit. *)
Lemma amount_token_matches_digit (a : ascii) (s' : string) (i : nat) :
  is_digit a = true ->
  exists y,
    matchAt true
      (Opt (Char "$") ** Plus digit
       ** Opt (Char "." ** Class digit ** Class digit) ** Star space
       ** Opt (lit "dollar" ** Opt (Char "s") <|> lit "buck" ** Opt (Char "s")))%re
      (String a s') i = Some y /\
    i < endIndex y.
Proof.
  intros Ha.
  destruct (nullable_matchAt true
              (Star digit
               ** Opt (Char "." ** Class digit ** Class digit) ** Star space
               ** Opt (lit "dollar" ** Opt (Char "s")
                       <|> lit "buck" ** Opt (Char "s")))%re
              s' (S i) eq_refl) as (y & Hy & Hle).
  exists y. split; [|lia].
  rewrite <- Hy.
  destruct a as [[] [] [] [] [] [] [] []]; try discriminate Ha; reflexivity.
Qed.

Lemma stripped_plain (text : string) :
  allChars plainChar (stripped text) = true.
Proof.
  unfold stripped, strippingPatterns. cbn [fold_left].
  apply trim_allChars. unfold plainChar.
  rewrite allChars_and. apply andb_true_iff. split.
  - do 3 (apply replace_allChars; [reflexivity|]).
    apply (replace_removes is_digit); [reflexivity | | reflexivity].
    cbn [ignoreCase source]. apply amount_token_matches_digit.
  - do 4 (apply replace_allChars; [reflexivity|]).
    apply (replace_removes isLetterI); [reflexivity | | reflexivity].
    cbn [ignoreCase source]. apply action_words_match_letter_i.
Qed.

Lemma cleaned_plain (text : string) :
  allChars plainChar (cleaned text) = true.
Proof.
  unfold cleaned. apply trim_allChars.
  do 2 (apply replace_allChars; [reflexivity|]).
  apply stripped_plain.
Qed.

Lemma plainChar_upper (c : ascii) : plainChar (upper_char c) = plainChar c.
Proof. destruct c as [[] [] [] [] [] [] [] []]; reflexivity. Qed.

Lemma capitalize_plain (d : string) :
  allChars plainChar d = true -> allChars plainChar (capitalize d) = true.
Proof.
  destruct d as [|c tail]; [reflexivity|].
  rewrite capitalize_cons. simpl. rewrite plainChar_upper. auto.
Qed.

Lemma chosenDescription_cleaned (text : string) :
  2 <= String.length (cleaned text) -> chosenDescription text = cleaned text.
Proof.
  intros H. unfold chosenDescription.
  apply Nat.ltb_ge in H. rewrite H. cbv zeta. rewrite H. reflexivity.
Qed.

(** ** Substrings *)

Lemma startsWith_iff (s k : string) :
  startsWith s k = true <-> exists b, s = (k ++ b)%string.
Proof.
  revert s. induction k as [|a k IH]; intros s; simpl.
  - split; [intros _; exists s; reflexivity | intros _; destruct s; reflexivity].
  - destruct s as [|c s]; simpl;
      [split; [discriminate | intros [b H]; discriminate]|].
    rewrite andb_true_iff, IH. split.
    + intros [Hc [b ->]]. apply Ascii.eqb_eq in Hc. subst c.
      exists b. reflexivity.
    + intros [b H]. injection H as -> ->. split; [apply Ascii.eqb_refl|].
      exists b. reflexivity.
Qed.

Lemma includes_iff (s k : string) :
  includes s k = true <-> exists a b, s = (a ++ k ++ b)%string.
Proof.
  induction s as [|c s IH].
  - change (includes "" k) with (startsWith "" k || false).
    rewrite orb_false_r, startsWith_iff. split.
    + intros [b H]. exists "", b. exact H.
    + intros (a & b & H). destruct a; [|discriminate].
      exists b. exact H.
  - change (includes (String c s) k)
      with (startsWith (String c s) k || includes s k).
    rewrite orb_true_iff, startsWith_iff, IH. split.
    + intros [[b H] | (a & b & H)].
      * exists "", b. exact H.
      * exists (String c a), b. rewrite H. reflexivity.
    + intros (a & b & H). destruct a as [|c' a].
      * left. exists b. exact H.
      * right. injection H as -> ->. exists a, b. reflexivity.
Qed.

Lemma includes_trans (s k j : string) :
  includes s k = true -> includes k j = true -> includes s j = true.
Proof.
  rewrite !includes_iff. intros (a & b & ->) (a' & b' & ->).
  exists (a ++ a')%string, (b' ++ b)%string.
  rewrite !append_assoc. reflexivity.
Qed.

Lemma includes_allChars (P : ascii -> bool) (s k : string) :
  includes s k = true -> allChars P s = true -> allChars P k = true.
Proof.
  rewrite includes_iff. intros (a & b & ->).
  rewrite !allChars_app, !andb_true_iff. tauto.
Qed.

Lemma trimStart_suffix (s : string) : exists a, s = (a ++ trimStart s)%string.
Proof.
  induction s as [|c s [a IH]]; simpl.
  - exists "". reflexivity.
  - destruct (is_space c).
    + exists (String c a). simpl. rewrite <- IH. reflexivity.
    + exists "". reflexivity.
Qed.

Lemma trimEnd_prefix (s : string) : exists b, s = (trimEnd s ++ b)%string.
Proof.
  induction s as [|c s [b IH]]; simpl.
  - exists "". reflexivity.
  - destruct (trimEnd s) as [|c' t] eqn:E.
    + destruct (is_space c).
      * exists (String c s). reflexivity.
      * exists s. reflexivity.
    + exists b. simpl in *. rewrite <- IH. reflexivity.
Qed.

Lemma includes_trim (s k : string) :
  includes (trim s) k = true -> includes s k = true.
Proof.
  intros H. apply (includes_trans s (trim s) k); [|exact H].
  apply includes_iff. unfold trim.
  destruct (trimStart_suffix s) as [a Ha].
  destruct (trimEnd_prefix (trimStart s)) as [b Hb].
  exists a, b. rewrite <- Hb. exact Ha.
Qed.

Lemma toLowerCase_allChars (P : ascii -> bool) (s : string) :
  (forall c, P c = true -> P (lower_char c) = true) ->
  allChars P s = true -> allChars P (toLowerCase s) = true.
Proof.
  intros HP. induction s as [|c s IH]; simpl; [reflexivity|].
  rewrite !andb_true_iff. intros [Hc Hs]. split; [apply HP, Hc | apply IH, Hs].
Qed.

(** ** More on the classifier *)

Lemma isValidCategory_iff (c : string) :
  isValidCategory c = true <-> In c getAllCategories.
Proof.
  unfold isValidCategory. rewrite existsb_exists. split.
  - intros (x & Hx & E). apply String.eqb_eq in E. subst x. exact Hx.
  - intros H. exists c. split; [exact H | apply String.eqb_refl].
Qed.

Lemma categoryOrder_permutation : Permutation categoryOrder getAllCategories.
Proof.
  apply NoDup_Permutation.
  - apply categoryOrder_NoDup.
  - unfold getAllCategories. simpl.
    repeat (constructor; [simpl; intuition discriminate|]). constructor.
  - intros c. unfold categoryOrder, getAllCategories. simpl. intuition.
Qed.

Lemma categorizeExpense_in_order (v : value) (c : string) :
  categorizeExpense v = Normal c -> In c categoryOrder.
Proof.
  assert (HO : In "Other" categoryOrder) by (simpl; intuition).
  intros H.
  destruct v as [| | b | n | s | props];
    try (rewrite categorizeExpense_not_string in H by (intros; discriminate);
         injection H as <-; exact HO).
  destruct (string_dec s "") as [-> | Hs]; [injection H as <-; exact HO|].
  rewrite (categorizeExpense_string s Hs) in H.
  assert (E0 : bestCategory (normalize s) categoryOrder = c) by congruence.
  rewrite <- E0. clear H E0.
  destruct (bestCategory_in (normalize s) categoryOrder) as [E | E];
    [rewrite <- E; exact HO | exact E].
Qed.

(** X1: the priority list is a rearrangement of the keys of the keyword
    table, and every category [categorizeExpense] returns passes
    [isValidCategory]. *)
Theorem categorizeExpense_isValidCategory :
  Permutation categoryOrder getAllCategories /\
  (forall c, isValidCategory c = true <-> In c categoryOrder) /\
  (forall v c, categorizeExpense v = Normal c -> isValidCategory c = true).
Proof.
  split; [exact categoryOrder_permutation|]. split.
  - intros c. rewrite isValidCategory_iff. split; intros H.
    + apply (Permutation_in _ (Permutation_sym categoryOrder_permutation) H).
    + apply (Permutation_in _ categoryOrder_permutation H).
  - intros v c H. apply isValidCategory_iff, categoryOrder_categories.
    apply (categorizeExpense_in_order v c H).
Qed.

Lemma categorizeExpense_isValidCategory_witness :
  isValidCategory "Transportation" = true.
Proof.
  exact (proj2 (proj2 categorizeExpense_isValidCategory)
           (VString "uber to the airport") "Transportation" eq_refl).
Defined.

Lemma scannedBefore_nth (order : list string) :
  NoDup order ->
  forall k j C B,
    nth_error order k = Some C -> nth_error order j = Some B -> k < j ->
    In C (scannedBefore order B).
Proof.
  induction order as [|c rest IH]; intros Hnd k j C B Hk Hj Hkj.
  - destruct k; discriminate.
  - inversion Hnd as [|? ? Hnotin Hnd']; subst.
    destruct j as [|j]; [lia|]. simpl in Hj. simpl.
    destruct (String.eqb c B) eqn:E.
    + apply String.eqb_eq in E. subst c. exfalso. apply Hnotin.
      eapply nth_error_In. exact Hj.
    + destruct k as [|k]; simpl in Hk.
      * injection Hk as ->. left. reflexivity.
      * right. apply (IH Hnd' k j); auto. lia.
Qed.

(** A keyword that contains a keyword of a category scanned earlier never
    decides the category. *)
Lemma shadowed_never_decides (s A B kA kB : string) (i j : nat) :
  nth_error categoryOrder i = Some A ->
  nth_error categoryOrder j = Some B ->
  i < j ->
  In kA (keywordsOf A) ->
  includes (toLowerCase kB) (toLowerCase kA) = true ->
  includes (normalize s) (toLowerCase kB) = true ->
  exists C, categorizeExpense (VString s) = Normal C /\
            In C (scannedBefore categoryOrder B).
Proof.
  intros Hi Hj Hij HkA Hsub Hin.
  assert (HA : categoryMatches (normalize s) A = true).
  { apply anyKeyword_true_iff. exists kA. split; [exact HkA|].
    apply (includes_trans _ _ _ Hin Hsub). }
  assert (Hs : s <> "").
  { intros ->.
    assert (E : categoryMatches (normalize "") A = false)
      by (apply (nothing_matches_empty A); eapply nth_error_In; eauto).
    congruence. }
  destruct (bestCategory_first_match (normalize s) categoryOrder i A Hi HA)
    as (k & C & Hk & HC & _ & _ & Hbest).
  exists C. rewrite (categorizeExpense_string s Hs), Hbest.
  split; [reflexivity|].
  apply (scannedBefore_nth categoryOrder categoryOrder_NoDup k j); auto. lia.
Qed.

(** X2: four keywords of the table contain a keyword of a category that
    is scanned earlier ("theater" and "heating" contain "eat", "gas bill"
    contains "gas", "shopping" is also a Groceries keyword); an input
    that contains one of them is given a category scanned earlier, never
    the keyword's own. *)
Theorem shadowed_keywords :
  shadowedKeywords
  = [ ("Entertainment", "theater"); ("Shopping", "shopping");
      ("Utilities", "gas bill"); ("Utilities", "heating") ]
  /\ (forall s B keyword,
         In (B, keyword) shadowedKeywords ->
         includes (normalize s) (toLowerCase keyword) = true ->
         exists C, categorizeExpense (VString s) = Normal C /\
                   In C (scannedBefore categoryOrder B) /\ C <> B).
Proof.
  assert (E : shadowedKeywords
              = [ ("Entertainment", "theater"); ("Shopping", "shopping");
                  ("Utilities", "gas bill"); ("Utilities", "heating") ])
    by (vm_compute; reflexivity).
  split; [exact E|].
  intros s B keyword HB Hin. rewrite E in HB.
  assert (H : exists C, categorizeExpense (VString s) = Normal C /\
                        In C (scannedBefore categoryOrder B)).
  { destruct HB as [HB | [HB | [HB | [HB | []]]]]; injection HB as <- <-.
    - apply (shadowed_never_decides s "Food & Dining" "Entertainment"
               "eat" "theater" 3 5);
        try reflexivity; try lia; try exact Hin; simpl; intuition.
    - apply (shadowed_never_decides s "Groceries" "Shopping"
               "shopping" "shopping" 2 6);
        try reflexivity; try lia; try exact Hin; simpl; intuition.
    - apply (shadowed_never_decides s "Transportation" "Utilities"
               "gas" "gas bill" 1 4);
        try reflexivity; try lia; try exact Hin; simpl; intuition.
    - apply (shadowed_never_decides s "Food & Dining" "Utilities"
               "eat" "heating" 3 4);
        try reflexivity; try lia; try exact Hin; simpl; intuition. }
  destruct H as (C & HC & Hbefore). exists C. repeat split; auto.
  intros ->. revert Hbefore.
  destruct HB as [HB | [HB | [HB | [HB | []]]]]; injection HB as <- _;
    simpl; intuition discriminate.
Qed.

Lemma shadowed_keywords_witness :
  exists C, categorizeExpense (VString "Theater tickets") = Normal C /\
            In C (scannedBefore categoryOrder "Entertainment") /\
            C <> "Entertainment".
Proof.
  apply (proj2 shadowed_keywords "Theater tickets" "Entertainment" "theater").
  - rewrite (proj1 shadowed_keywords). left. reflexivity.
  - reflexivity.
Defined.

Lemma lookup_In {A : Type} (k : string) (l : list (string * A)) (a : A) :
  lookup k l = Some a -> In (k, a) l.
Proof.
  induction l as [|[k' a'] l IH]; simpl; [discriminate|].
  destruct (String.eqb k' k) eqn:E.
  - intros H. injection H as ->. apply String.eqb_eq in E. subst k'. auto.
  - auto.
Qed.

Lemma lookup_not_in {A : Type} (k : string) (l : list (string * A)) :
  ~ In k (map fst l) -> lookup k l = None.
Proof.
  induction l as [|[k' a'] l IH]; simpl; [reflexivity|].
  intros H. destruct (String.eqb k' k) eqn:E.
  - apply String.eqb_eq in E. tauto.
  - apply IH. tauto.
Qed.

Lemma getAllCategories_eq :
  getAllCategories
  = [ "Food & Dining"; "Groceries"; "Transportation"; "Entertainment";
      "Shopping"; "Utilities"; "Healthcare"; "Other" ].
Proof. reflexivity. Qed.

Lemma getAllCategories_NoDup : NoDup getAllCategories.
Proof.
  rewrite getAllCategories_eq.
  repeat (constructor; [simpl; intuition discriminate|]). constructor.
Qed.

Lemma keywords_nonempty (c k : string) :
  In k (keywordsOf c) -> 0 < String.length k.
Proof.
  assert (H : forallb (fun entry =>
                         forallb (fun k => 0 <? String.length k) (snd entry))
                categoryKeywords = true) by (vm_compute; reflexivity).
  unfold keywordsOf. destruct (lookup c categoryKeywords) as [kws|] eqn:E;
    [|intros []].
  apply lookup_In in E. rewrite forallb_forall in H. specialize (H _ E).
  cbn [snd] in H. rewrite forallb_forall in H.
  intros Hk. apply Nat.ltb_lt. apply H. exact Hk.
Qed.

Lemma matchedLengthSum_positive (n : string) (keywords : list string) (k : string) :
  In k keywords -> 0 < String.length k ->
  includes n (toLowerCase k) = true ->
  0 < matchedLengthSum n keywords.
Proof.
  unfold matchedLengthSum. intros Hin Hlen Hk.
  induction keywords as [|k' rest IH]; [destruct Hin|].
  simpl. destruct Hin as [-> | Hin].
  - rewrite Hk. simpl. lia.
  - specialize (IH Hin).
    destruct (includes n (toLowerCase k')); simpl; lia.
Qed.

Lemma categoryMatches_score (s c : string) :
  categoryMatches (normalize s) c = true ->
  0 < categoryScore (toLowerCase s) c.
Proof.
  intros H. apply anyKeyword_true_iff in H. destruct H as (k & Hin & Hk).
  apply includes_trim in Hk.
  apply (matchedLengthSum_positive _ _ k Hin (keywords_nonempty c k Hin) Hk).
Qed.

Lemma scored_suggested (s : string) (sg : Suggestion) :
  2 <= String.length s ->
  In sg (scoredCategories (toLowerCase s)) ->
  getSuggestedCategories s <> [].
Proof.
  intros Hlen Hin. rewrite (getSuggestedCategories_long s Hlen).
  apply (Permutation_in _
           (Permutation_sym (sort_perm byScoreDescending _))) in Hin.
  destruct (sort byScoreDescending (scoredCategories (toLowerCase s)));
    [destruct Hin | discriminate].
Qed.

(** X3: on an input of at least 2 characters, a category one of whose
    keywords [categorizeExpense] finds has a positive score, so
    [getSuggestedCategories] returns at least one suggestion; and when
    [getSuggestedCategories] returns none, [categorizeExpense] returns
    "Other". *)
Theorem suggestions_agree_with_category (s : string) :
  2 <= String.length s ->
  (forall c,
      In c getAllCategories ->
      categoryMatches (normalize s) c = true ->
      0 < categoryScore (toLowerCase s) c /\ getSuggestedCategories s <> [])
  /\ (getSuggestedCategories s = [] ->
      categorizeExpense (VString s) = Normal "Other").
Proof.
  intros Hlen.
  assert (Hmatch : forall c,
             In c getAllCategories ->
             categoryMatches (normalize s) c = true ->
             0 < categoryScore (toLowerCase s) c /\
             getSuggestedCategories s <> []).
  { intros c Hc Hm. pose proof (categoryMatches_score s c Hm) as Hpos.
    split; [exact Hpos|].
    apply (scored_suggested s
             {| category := c; score := categoryScore (toLowerCase s) c |} Hlen).
    apply scoredCategories_in. simpl. auto. }
  split; [exact Hmatch|].
  intros Hnone.
  assert (Hs : s <> "") by (intros ->; simpl in Hlen; lia).
  rewrite (categorizeExpense_string s Hs). f_equal.
  apply bestCategory_no_match. intros c Hc.
  destruct (categoryMatches (normalize s) c) eqn:E; [|reflexivity].
  destruct (Hmatch c (categoryOrder_categories c Hc) E) as [_ Hne].
  contradiction.
Qed.

Lemma suggestions_agree_with_category_witness :
  (forall c,
      In c getAllCategories ->
      categoryMatches (normalize "  taxi  ") c = true ->
      0 < categoryScore (toLowerCase "  taxi  ") c /\
      getSuggestedCategories "  taxi  " <> [])
  /\ (getSuggestedCategories "  taxi  " = [] ->
      categorizeExpense (VString "  taxi  ") = Normal "Other").
Proof.
  apply (suggestions_agree_with_category "  taxi  ").
  apply Nat.leb_le. reflexivity.
Defined.

Lemma NoDup_map_filter {A B : Type} (f : A -> B) (P : A -> bool) (l : list A) :
  NoDup (map f l) -> NoDup (map f (filter P l)).
Proof.
  induction l as [|a l IH]; simpl; [auto|].
  intros H. inversion H as [|? ? Hnotin Hnd]; subst.
  destruct (P a); [|auto]. simpl. constructor; [|auto].
  intros Hin. apply Hnotin. apply in_map_iff in Hin.
  destruct Hin as (x & Hx & Hin). apply filter_In in Hin.
  apply in_map_iff. exists x. tauto.
Qed.

Lemma NoDup_firstn_of {A : Type} (k : nat) (l : list A) :
  NoDup l -> NoDup (firstn k l).
Proof.
  intros H. rewrite <- (firstn_skipn k l) in H.
  apply NoDup_app_remove_r in H. exact H.
Qed.

(** X4: [getSuggestedCategories] never returns a category twice, and
    every category it returns passes [isValidCategory], on inputs of any
    length. *)
Theorem getSuggestedCategories_distinct_valid (s : string) :
  NoDup (getSuggestedCategories s) /\
  Forall (fun c => isValidCategory c = true) (getSuggestedCategories s).
Proof.
  destruct (Nat.lt_ge_cases (String.length s) 2) as [Hshort | Hlong].
  - rewrite (getSuggestedCategories_short s Hshort). split.
    + apply getAllCategories_NoDup.
    + apply Forall_forall. intros c Hc. apply isValidCategory_iff. exact Hc.
  - rewrite (getSuggestedCategories_long s Hlong).
    set (n := toLowerCase s).
    assert (Hnd : NoDup (map category (scoredCategories n))).
    { unfold scoredCategories.
      assert (E : forall l : list (string * list string),
                 map category
                   (filter (fun sg => 0 <? score sg)
                      (map (fun entry =>
                              {| category := fst entry;
                                 score := matchedLengthSum n (snd entry) |}) l))
                 = map fst
                     (filter (fun entry => 0 <? matchedLengthSum n (snd entry)) l)).
      { induction l as [|e l IH]; simpl; [reflexivity|].
        destruct (0 <? matchedLengthSum n (snd e)); simpl; rewrite IH;
          reflexivity. }
      rewrite E. apply NoDup_map_filter. apply getAllCategories_NoDup. }
    split.
    + rewrite <- firstn_map. apply NoDup_firstn_of.
      apply (Permutation_NoDup
               (Permutation_map category
                  (Permutation_sym (sort_perm byScoreDescending _))) Hnd).
    + apply Forall_forall. intros c Hc.
      apply in_map_iff in Hc. destruct Hc as (sg & <- & Hsg).
      assert (Hin : In sg (scoredCategories n)).
      { apply (Permutation_in _ (sort_perm byScoreDescending _)).
        rewrite <- (firstn_skipn 3 (sort _ _)). apply in_or_app. left.
        exact Hsg. }
      apply scoredCategories_in in Hin. apply isValidCategory_iff. tauto.
Qed.

(** ** Display lookups *)

Lemma isValidCategory_cases (c : string) :
  isValidCategory c = true ->
  In c [ "Food & Dining"; "Groceries"; "Transportation"; "Entertainment";
         "Shopping"; "Utilities"; "Healthcare"; "Other" ].
Proof. intros H. apply isValidCategory_iff in H. exact H. Qed.

Lemma member_unknown (table : list (string * string)) (c : string) :
  map fst table = getAllCategories ->
  isValidCategory c = false ->
  member table c
  = if existsb (String.eqb c) objectPrototypeProperties
    then VObject [] else VUndefined.
Proof.
  intros Hkeys Hc. unfold member. rewrite lookup_not_in; [reflexivity|].
  rewrite Hkeys. intros Hin. apply isValidCategory_iff in Hin. congruence.
Qed.

(** X5: every category that passes [isValidCategory] has an icon of its
    own: [getCategoryIcon] returns a string other than the fallback
    "fas fa-receipt", and different categories get different icons. *)
Theorem getCategoryIcon_valid (c1 c2 : string) :
  isValidCategory c1 = true ->
  isValidCategory c2 = true ->
  (exists icon, getCategoryIcon c1 = VString icon /\ icon <> "fas fa-receipt")
  /\ (getCategoryIcon c1 = getCategoryIcon c2 -> c1 = c2).
Proof.
  intros H1 H2.
  apply isValidCategory_cases in H1. apply isValidCategory_cases in H2.
  simpl in H1, H2.
  repeat (destruct H1 as [<- | H1]); try contradiction;
    (split;
     [ eexists; split; [reflexivity | discriminate]
     | repeat (destruct H2 as [<- | H2]); try contradiction;
       intros E; first [reflexivity | vm_compute in E; discriminate E] ]).
Qed.

Lemma getCategoryIcon_valid_witness :
  (exists icon, getCategoryIcon "Groceries" = VString icon /\
                icon <> "fas fa-receipt")
  /\ (getCategoryIcon "Groceries" = getCategoryIcon "Shopping" ->
      "Groceries" = "Shopping").
Proof.
  exact (getCategoryIcon_valid "Groceries" "Shopping" eq_refl eq_refl).
Defined.

(** X6: the colors of the categories that pass [isValidCategory] are
    strings and differ from one another, and "Other" is the one category
    whose color is the fallback color. *)
Theorem getCategoryColor_valid (c1 c2 : string) :
  isValidCategory c1 = true ->
  isValidCategory c2 = true ->
  (exists color, getCategoryColor c1 = VString color)
  /\ (getCategoryColor c1 = getCategoryColor c2 -> c1 = c2)
  /\ (getCategoryColor c1 = VString "bg-gray-100 text-gray-600" <-> c1 = "Other").
Proof.
  intros H1 H2.
  apply isValidCategory_cases in H1. apply isValidCategory_cases in H2.
  simpl in H1, H2.
  repeat (destruct H1 as [<- | H1]); try contradiction;
    (split; [eexists; reflexivity|]; split;
     [ repeat (destruct H2 as [<- | H2]); try contradiction;
       intros E; first [reflexivity | vm_compute in E; discriminate E]
     | split; intros E;
       first [reflexivity | discriminate E | vm_compute in E; discriminate E] ]).
Qed.

Lemma getCategoryColor_valid_witness :
  (exists color, getCategoryColor "Other" = VString color)
  /\ (getCategoryColor "Other" = getCategoryColor "Utilities" ->
      "Other" = "Utilities")
  /\ (getCategoryColor "Other" = VString "bg-gray-100 text-gray-600"
      <-> "Other" = "Other").
Proof.
  exact (getCategoryColor_valid "Other" "Utilities" eq_refl eq_refl).
Defined.

(** X7: on a name that does not pass [isValidCategory], the icon and the
    color are the fallbacks, unless the name is a property that the
    tables inherit from [Object.prototype]: then [icons[category]] is a
    truthy object, and it is returned in place of a string. *)
Theorem display_lookups_unknown (c : string) :
  isValidCategory c = false ->
  (existsb (String.eqb c) objectPrototypeProperties = false ->
   getCategoryIcon c = VString "fas fa-receipt" /\
   getCategoryColor c = VString "bg-gray-100 text-gray-600")
  /\ (existsb (String.eqb c) objectPrototypeProperties = true ->
      getCategoryIcon c = VObject [] /\ getCategoryColor c = VObject []).
Proof.
  intros Hc. unfold getCategoryIcon, getCategoryColor.
  rewrite (member_unknown icons c eq_refl Hc).
  rewrite (member_unknown colors c eq_refl Hc).
  split; intros ->; split; reflexivity.
Qed.

Lemma display_lookups_unknown_witness :
  (getCategoryIcon "Travel" = VString "fas fa-receipt" /\
   getCategoryColor "Travel" = VString "bg-gray-100 text-gray-600")
  /\ (getCategoryIcon "constructor" = VObject [] /\
      getCategoryColor "constructor" = VObject []).
Proof.
  split.
  - exact (proj1 (display_lookups_unknown "Travel" eq_refl) eq_refl).
  - exact (proj2 (display_lookups_unknown "constructor" eq_refl) eq_refl).
Defined.

(** ** Speech recognition errors *)

(** X8: the component's [onerror] handler shows the message of
    [handleSpeechError] for every error code except "network", "aborted"
    and "service-not-allowed", for which it shows the generic message and
    [handleSpeechError] a message of their own. *)
Theorem onerror_message_agrees (event : SpeechRecognitionErrorEvent) :
  (VoiceInput.onerrorMessage event = handleSpeechError event
   <-> ~ In (error event) unhandledByComponent)
  /\ (In (error event) unhandledByComponent ->
      VoiceInput.onerrorMessage event
      = "Speech recognition failed. Please try again.").
Proof.
  destruct event as [e m]. unfold VoiceInput.onerrorMessage, handleSpeechError.
  cbn [error]. unfold unhandledByComponent.
  destruct (String.eqb e "no-speech") eqn:E1;
    [apply String.eqb_eq in E1; subst e; simpl; split;
     [split; [intuition discriminate | reflexivity] | intuition discriminate]|].
  destruct (String.eqb e "audio-capture") eqn:E2;
    [apply String.eqb_eq in E2; subst e; simpl; split;
     [split; [intuition discriminate | reflexivity] | intuition discriminate]|].
  destruct (String.eqb e "not-allowed") eqn:E3;
    [apply String.eqb_eq in E3; subst e; simpl; split;
     [split; [intuition discriminate | reflexivity] | intuition discriminate]|].
  destruct (String.eqb e "network") eqn:E4;
    [apply String.eqb_eq in E4; subst e; simpl; split;
     [split; [discriminate | intuition] | reflexivity]|].
  destruct (String.eqb e "aborted") eqn:E5;
    [apply String.eqb_eq in E5; subst e; simpl; split;
     [split; [discriminate | intuition] | reflexivity]|].
  destruct (String.eqb e "service-not-allowed") eqn:E6;
    [apply String.eqb_eq in E6; subst e; simpl; split;
     [split; [discriminate | intuition] | reflexivity]|].
  apply String.eqb_neq in E4, E5, E6.
  split; [split; [|reflexivity] | reflexivity].
  intros _ H. simpl in H. intuition congruence.
Qed.

(** ** The component's use of the parser *)

Lemma parseVoiceInput_amount_positive (env : Env) (v : value) (e : ParsedExpense) :
  parseVoiceInput env v = Normal (Some e) ->
  JsNumber.gt (amount e) (JsNumber.of_Z 0) = true.
Proof.
  intros H. apply parseVoiceInput_some in H.
  destruct H as (s & _ & _ & Ha & _).
  pose proof (extractAmount_first (normalize s) amountPatterns) as Hfirst.
  rewrite Ha in Hfirst. destruct Hfirst as (_ & _ & _ & _ & _ & _ & Hacc & _).
  apply gt_zero_iff, acceptable_iff. exact Hacc.
Qed.

Lemma parseVoiceInput_description_length (env : Env) (v : value) (e : ParsedExpense) :
  parseVoiceInput env v = Normal (Some e) ->
  2 <= String.length (description e).
Proof.
  intros H. apply parseVoiceInput_some in H.
  destruct H as (s & _ & _ & _ & Hd & _).
  rewrite Hd, extractDescription_chosen.
  apply capitalize_shape, chosenDescription_length.
Qed.

(** X9: [processVoiceInput] never reaches its [catch] branch: it shows
    "Could not parse input" exactly when [parseVoiceInput] returns null,
    and otherwise hands over the parsed amount and description, the
    category [categorizeExpense] gives the description, which passes
    [isValidCategory], and the parsed date, never the [new Date()]
    fallback. *)
Theorem processVoiceInput_outcome (env : Env) (fallbackNow : Z) (transcript : value) :
  (parseVoiceInput env transcript = Normal None /\
   VoiceInput.processVoiceInput env fallbackNow transcript
   = VoiceInput.couldNotParse)
  \/ (exists e d c,
         parseVoiceInput env transcript = Normal (Some e) /\
         date e = Some d /\
         categorizeExpense (VString (description e)) = Normal c /\
         isValidCategory c = true /\
         VoiceInput.processVoiceInput env fallbackNow transcript
         = VoiceInput.processed
             {| VoiceInput.amount := amount e;
                VoiceInput.description := description e;
                VoiceInput.category := c;
                VoiceInput.date := d |}).
Proof.
  destruct (parseVoiceInput_returns env transcript) as [[e|] H].
  - right.
    destruct (parseVoiceInput_some env transcript e H)
      as (s & _ & _ & _ & _ & Hdate).
    assert (Hd : description e <> "").
    { pose proof (parseVoiceInput_description_length env transcript e H) as L.
      intros E. rewrite E in L. simpl in L. lia. }
    exists e, (extractDate env (normalize s)),
      (bestCategory (normalize (description e)) categoryOrder).
    pose proof (categorizeExpense_string (description e) Hd) as Hc.
    repeat split; try assumption.
    + apply isValidCategory_iff, categoryOrder_categories.
      apply (categorizeExpense_in_order _ _ Hc).
    + unfold VoiceInput.processVoiceInput. rewrite H.
      unfold VoiceInput.parsedDescription, VoiceInput.parsedAmount,
        VoiceInput.parsedDate.
      rewrite Hc, Hdate. reflexivity.
  - left. split; [exact H|].
    unfold VoiceInput.processVoiceInput. rewrite H. reflexivity.
Qed.

(** ** The description *)

(** X10: for an utterance of ASCII characters, when stripping leaves at
    least 2 characters, the description of a parsed expense contains no
    decimal digit and no letter i, in either case: the amount pattern
    removes every digit, and the action-word pattern, which has no word
    boundary, every i. *)
Theorem description_without_digits_or_i (env : Env) (s : string) (e : ParsedExpense) :
  allChars isAscii s = true ->
  parseVoiceInput env (VString s) = Normal (Some e) ->
  2 <= String.length (cleaned s) ->
  allChars plainChar (description e) = true.
Proof.
  intros _ H Hlen. apply parseVoiceInput_some in H.
  destruct H as (s' & Hv & _ & _ & Hd & _). injection Hv as <-.
  rewrite Hd, extractDescription_chosen, (chosenDescription_cleaned s Hlen).
  apply capitalize_plain, cleaned_plain.
Qed.

Lemma description_without_digits_or_i_witness :
  allChars plainChar "Pzza" = true.
Proof.
  apply (description_without_digits_or_i sampleEnv "paid 20 for pizza"
           {| amount := Finite 20;
              description := "Pzza";
              date := Some {| getTime := clockAtNewDate sampleEnv |} |}
           eq_refl eq_refl).
  apply Nat.leb_le. reflexivity.
Defined.

Lemma isLetterI_lower (c : ascii) :
  negb (isLetterI c) = true -> negb (isLetterI (lower_char c)) = true.
Proof. destruct c as [[] [] [] [] [] [] [] []]; intros H; exact H || reflexivity. Qed.

Lemma plainChar_not_i (s : string) :
  allChars plainChar s = true ->
  allChars (fun c => negb (isLetterI c)) s = true.
Proof.
  unfold plainChar. rewrite allChars_and, andb_true_iff. tauto.
Qed.

Lemma processVoiceInput_parsed (env : Env) (fallbackNow : Z) (transcript : value)
  (d : VoiceInput.ParsedExpense) :
  VoiceInput.setParsedExpense
    (VoiceInput.processVoiceInput env fallbackNow transcript) = Some d ->
  exists e,
    parseVoiceInput env transcript = Normal (Some e) /\
    VoiceInput.description d = description e.
Proof.
  unfold VoiceInput.processVoiceInput.
  destruct (parseVoiceInput env transcript) as [[e|]|]; try discriminate.
  destruct (categorizeExpense (VString (VoiceInput.parsedDescription e)));
    [|discriminate].
  simpl. intros H. injection H as <-. exists e. split; reflexivity.
Qed.

(** X11: so, for an utterance and a keyword of ASCII characters, the
    category the component gives such an expense is never decided by a
    keyword that contains the letter i ("pizza", "taxi", "medicine",
    ...): no such keyword occurs in the normalized description. *)
Theorem voice_category_ignores_keywords_with_i
  (env : Env) (fallbackNow : Z) (s : string) (d : VoiceInput.ParsedExpense)
  (keyword : string) :
  allChars isAscii s = true ->
  allChars isAscii keyword = true ->
  VoiceInput.setParsedExpense
    (VoiceInput.processVoiceInput env fallbackNow (VString s)) = Some d ->
  2 <= String.length (cleaned s) ->
  allChars (fun c => negb (isLetterI c)) (toLowerCase keyword) = false ->
  includes (normalize (VoiceInput.description d)) (toLowerCase keyword) = false.
Proof.
  intros _ _ H Hlen Hk.
  destruct (processVoiceInput_parsed env fallbackNow (VString s) d H)
    as (e & Hp & ->).
  apply parseVoiceInput_some in Hp.
  destruct Hp as (s' & Hv & _ & _ & Hd & _). injection Hv as <-.
  destruct (includes (normalize (description e)) (toLowerCase keyword)) eqn:Hin;
    [|reflexivity].
  rewrite <- Hk. symmetry.
  apply (includes_allChars _ _ _ Hin).
  apply trim_allChars, toLowerCase_allChars; [exact isLetterI_lower|].
  apply plainChar_not_i.
  rewrite Hd, extractDescription_chosen, (chosenDescription_cleaned s Hlen).
  apply capitalize_plain, cleaned_plain.
Qed.

Lemma voice_category_ignores_keywords_with_i_witness :
  includes (normalize "Pzza") (toLowerCase "pizza") = false.
Proof.
  apply (voice_category_ignores_keywords_with_i sampleEnv 0 "paid 20 for pizza"
           {| VoiceInput.amount := Finite 20;
              VoiceInput.description := "Pzza";
              VoiceInput.category := "Other";
              VoiceInput.date := {| getTime := clockAtNewDate sampleEnv |} |}
           "pizza" eq_refl eq_refl eq_refl).
  - apply Nat.leb_le. reflexivity.
  - reflexivity.
Defined.

(** ** Validation of a parsed expense *)

(** X12: for a result of [parseVoiceInput], handed over as an object, the
    lower bounds of [validateParsedExpense] always hold: the result
    validates exactly when its amount is less than 10000 and its
    description shorter than 200 characters. *)
Theorem validateParsedExpense_of_parsed (env : Env) (v : value) (e : ParsedExpense) :
  parseVoiceInput env v = Normal (Some e) ->
  (validateParsedExpense (asObject e) = VBool true <->
   JsNumber.lt (amount e) (JsNumber.of_Z 10000) = true /\
   String.length (description e) < 200).
Proof.
  intros H.
  pose proof (parseVoiceInput_amount_positive env v e H) as Hpos.
  pose proof (parseVoiceInput_description_length env v e H) as Hlen.
  unfold asObject. rewrite validateParsedExpense_object.
  change (lookup "amount" _) with (Some (VNumber (amount e))).
  change (lookup "description" _) with (Some (VString (description e))).
  split.
  - intros (a & d & Ha & _ & Hlt & Hd & _ & Hd2).
    injection Ha as <-. injection Hd as <-.
    split; [exact Hlt | apply length_lt_200; exact Hd2].
  - intros [Hlt Hd]. exists (amount e), (description e).
    repeat split; auto.
    + apply length_gt_zero. lia.
    + apply length_lt_200. exact Hd.
Qed.

Lemma validateParsedExpense_of_parsed_witness :
  validateParsedExpense
    (asObject {| amount := Finite 30;
                 description := "Gas";
                 date := Some {| getTime := clockAtNewDate sampleEnv |} |})
  = VBool true <->
  JsNumber.lt (Finite 30) (JsNumber.of_Z 10000) = true /\
  String.length "Gas" < 200.
Proof.
  exact (validateParsedExpense_of_parsed sampleEnv (VString "I paid $30 for gas")
           {| amount := Finite 30;
              description := "Gas";
              date := Some {| getTime := clockAtNewDate sampleEnv |} |}
           eq_refl).
Defined.

(** ** The time of day *)

Section TimeOfDay.
Local Open Scope Z_scope.
Import JsDate.

Lemma setHours_same_day (env : Env) (d : Date) (hour min sec ms : Z) :
  0 <= MakeTime hour min sec ms < msPerDay ->
  Day (LocalTime env (getTime (setHours env d hour min sec ms)))
  = Day (LocalTime env (getTime d)).
Proof.
  intros H. unfold setHours, LocalTime, UTC, MakeDate, Day. cbn [getTime].
  set (day := (getTime d + localTZA env) / msPerDay).
  set (t := MakeTime hour min sec ms) in *.
  replace (day * msPerDay + t - localTZA env + localTZA env)
    with (t + day * msPerDay) by lia.
  rewrite Z.div_add by (unfold msPerDay; lia).
  rewrite Z.div_small by exact H. lia.
Qed.

(** X13: without "yesterday" in the normalized input, the date of a
    parsed expense falls on the local calendar day of the clock reading;
    its clock time is 09:00 with "this morning", else 14:00 with "this
    afternoon", else 19:00 with "this evening" or "tonight", and with
    none of them the date is the reading itself. *)
Theorem parseVoiceInput_time_of_day (env : Env) (s : string)
  (e : ParsedExpense) (d : Date) :
  parseVoiceInput env (VString s) = Normal (Some e) ->
  date e = Some d ->
  includes (normalize s) "yesterday" = false ->
  Day (LocalTime env (getTime d)) = Day (LocalTime env (clockAtNewDate env))
  /\ (includes (normalize s) "this morning" = true ->
      clockTime env d = 9 * 3600000)
  /\ (includes (normalize s) "this morning" = false ->
      includes (normalize s) "this afternoon" = true ->
      clockTime env d = 14 * 3600000)
  /\ (includes (normalize s) "this morning" = false ->
      includes (normalize s) "this afternoon" = false ->
      includes (normalize s) "this evening"
      || includes (normalize s) "tonight" = true ->
      clockTime env d = 19 * 3600000)
  /\ (includes (normalize s) "this morning" = false ->
      includes (normalize s) "this afternoon" = false ->
      includes (normalize s) "this evening"
      || includes (normalize s) "tonight" = false ->
      getTime d = clockAtNewDate env).
Proof.
  intros H Hd Hy. apply parseVoiceInput_some in H.
  destruct H as (s' & Hv & _ & _ & _ & Hdate). injection Hv as <-.
  assert (E : d = extractDate env (normalize s)) by congruence.
  subst d. clear Hd Hdate. unfold extractDate. rewrite Hy.
  assert (H9 : 0 <= MakeTime 9 0 0 0 < msPerDay)
    by (unfold MakeTime, msPerDay; lia).
  assert (H14 : 0 <= MakeTime 14 0 0 0 < msPerDay)
    by (unfold MakeTime, msPerDay; lia).
  assert (H19 : 0 <= MakeTime 19 0 0 0 < msPerDay)
    by (unfold MakeTime, msPerDay; lia).
  destruct (includes (normalize s) "this morning");
    [|destruct (includes (normalize s) "this afternoon");
      [|destruct (includes (normalize s) "this evening"
                 || includes (normalize s) "tonight")]];
    (split; [first [apply setHours_same_day; assumption | reflexivity]|]);
    repeat split; intros; try discriminate;
    first [ rewrite clockTime_setHours by assumption; reflexivity
          | reflexivity ].
Qed.
End TimeOfDay.

Lemma parseVoiceInput_time_of_day_witness :
  JsDate.clockTime sampleEnv
    (JsDate.setHours sampleEnv {| getTime := clockAtNewDate sampleEnv |} 19 0 0 0)
  = (19 * 3600000)%Z.
Proof.
  apply (proj1 (proj2 (proj2 (proj2
           (parseVoiceInput_time_of_day sampleEnv "Dinner was 42 dollars tonight"
              {| amount := Finite 42;
                 description := "Dnner tght";
                 date := Some (JsDate.setHours sampleEnv
                                 {| getTime := clockAtNewDate sampleEnv |}
                                 19 0 0 0) |}
              _ eq_refl eq_refl eq_refl)))));
    reflexivity.
Defined.

(** ** Utterances without a digit *)

Section NeedsFacts.
Variable icase : bool.
Variable Q : ascii -> bool.

(** A match of a pattern that needs a [Q] character consumes one. *)
Lemma matcher_needs (r : regex) :
  Needs Q r ->
  forall (x : State) (c : Continuation) (z : State),
    matcher icase r x c = Some z ->
    exists y q, c y = Some z /\ consumed x y q /\
               allChars (fun c => negb (Q c)) q = false.
Proof.
  induction 1 as [p Hp | r1 r2 _ IH | r1 r2 _ IH | r1 r2 _ IH1 _ IH2 | r1 _ IH];
    intros x c z H; simpl in H.
  - destruct (rest x) as [|a s'] eqn:E; [discriminate|].
    destruct (p a) eqn:Ea; [|discriminate].
    exists (advance x s'), (String a ""). split; [exact H|].
    split; [split; simpl; [exact E | lia]|].
    simpl. rewrite (Hp a Ea). reflexivity.
  - destruct (IH _ _ _ H) as (y1 & q1 & H1 & Hq1 & Hw).
    destruct (matcher_reaches icase r2 _ _ _ H1) as (y2 & q2 & H2 & Hq2).
    exists y2, (q1 ++ q2)%string. split; [exact H2|].
    split; [eapply consumed_trans; eauto|].
    rewrite allChars_app, Hw. reflexivity.
  - destruct (matcher_reaches icase r1 _ _ _ H) as (y1 & q1 & H1 & Hq1).
    destruct (IH _ _ _ H1) as (y2 & q2 & H2 & Hq2 & Hw).
    exists y2, (q1 ++ q2)%string. split; [exact H2|].
    split; [eapply consumed_trans; eauto|].
    rewrite allChars_app, Hw. apply andb_false_r.
  - destruct (matcher icase r1 x c) as [z'|] eqn:E.
    + injection H as <-. apply IH1. exact E.
    + apply IH2. exact H.
  - destruct (IH _ _ _ H) as (y & q & Hc & [Hq1 Hq2] & Hw).
    eexists. exists q. split; [exact Hc|].
    split; [split; simpl; assumption | exact Hw].
Qed.

Lemma search_needs (r : regex) :
  Needs Q r ->
  forall s i,
    allChars (fun c => negb (Q c)) s = true -> search icase r s i = None.
Proof.
  intros Hr.
  assert (Hat : forall s i, allChars (fun c => negb (Q c)) s = true ->
                            matchAt icase r s i = None).
  { intros s i Hs. destruct (matchAt icase r s i) as [y|] eqn:E; [|reflexivity].
    unfold matchAt in E.
    destruct (matcher_needs r Hr _ _ _ E) as (y' & q & _ & [Hq _] & Hw).
    simpl in Hq. rewrite Hq, allChars_app in Hs.
    rewrite Hw in Hs. discriminate. }
  induction s as [|a s IH]; intros i Hs; simpl.
  - rewrite (Hat _ _ Hs). reflexivity.
  - rewrite (Hat _ _ Hs). apply IH.
    simpl in Hs. apply andb_true_iff in Hs. tauto.
Qed.
End NeedsFacts.

Ltac needs_digit :=
  lazymatch goal with
  | |- Needs _ (Class _) => apply Needs_Class; intros ? H; exact H
  | |- Needs _ (Group _) => apply Needs_Group; needs_digit
  | |- Needs _ (Alt _ _) => apply Needs_Alt; needs_digit
  | |- Needs _ (Cat _ _) =>
      first [ apply Needs_Cat_l; needs_digit | apply Needs_Cat_r; needs_digit ]
  end.

Lemma amountPatterns_need_digit :
  Forall (fun pattern => Needs is_digit (source pattern)) amountPatterns.
Proof.
  unfold amountPatterns, decimal, Plus, digit.
  repeat (apply Forall_cons; [cbn [source]; needs_digit|]).
  apply Forall_nil.
Qed.

Lemma extractAmount_without_digit (n : string) (patterns : list RegExp) :
  Forall (fun pattern => Needs is_digit (source pattern)) patterns ->
  allChars (fun c => negb (is_digit c)) n = true ->
  extractAmount n patterns = None.
Proof.
  intros Hp Hn. induction Hp as [|p rest Hneeds _ IH]; simpl; [reflexivity|].
  unfold match_. rewrite (search_needs _ is_digit _ Hneeds n 0 Hn). exact IH.
Qed.

Lemma not_digit_lower (c : ascii) :
  negb (is_digit c) = true -> negb (is_digit (lower_char c)) = true.
Proof. destruct c as [[] [] [] [] [] [] [] []]; intros H; exact H || reflexivity. Qed.

(** X14: an utterance without a decimal digit is never parsed: every
    amount pattern needs a digit, so an amount in words ("five dollars")
    gives null. *)
Theorem parseVoiceInput_needs_digit (env : Env) (s : string) :
  allChars (fun c => negb (is_digit c)) s = true ->
  parseVoiceInput env (VString s) = Normal None.
Proof.
  intros Hs. destruct (string_dec s "") as [-> | Hne]; [reflexivity|].
  rewrite (parseVoiceInput_string env s Hne).
  rewrite (extractAmount_without_digit (normalize s) amountPatterns
             amountPatterns_need_digit); [reflexivity|].
  apply trim_allChars, toLowerCase_allChars; [exact not_digit_lower | exact Hs].
Qed.

Lemma parseVoiceInput_needs_digit_witness :
  parseVoiceInput sampleEnv (VString "five dollars for lunch") = Normal None.
Proof.
  exact (parseVoiceInput_needs_digit sampleEnv "five dollars for lunch" eq_refl).
Defined.

(** ** Whitespace of the description *)

Lemma star_end (p : ascii -> bool) :
  forall s i cap,
    exists y, star p s i cap Some = Some y /\ endIndex y = i + spanLength p s.
Proof.
  induction s as [|a s IH]; intros i cap; simpl.
  - eexists. split; [reflexivity | simpl; lia].
  - destruct (p a).
    + destruct (IH (S i) cap) as (y & -> & Hy).
      exists y. split; [reflexivity | lia].
    + eexists. split; [reflexivity | simpl; lia].
Qed.

Lemma whitespaceRun_matchAt (a : ascii) (s : string) (i : nat) :
  (is_space a = true ->
   exists y, matchAt false (Plus space) (String a s) i = Some y /\
             endIndex y - i = S (spanLength is_space s))
  /\ (is_space a = false -> matchAt false (Plus space) (String a s) i = None).
Proof.
  unfold matchAt, Plus, space. simpl. split; intros Ha; rewrite Ha.
  - destruct (star_end is_space s (S i) None) as (y & Hy & E).
    exists y. split; [exact Hy | lia].
  - reflexivity.
Qed.

(** Replacing [/\s+/g] by a space collapses the runs of whitespace. *)
Lemma replaceEach_whitespaceRun (s : string) :
  forall i,
    replaceEach false (Plus space) " " s i 0 = collapse false s /\
    replaceEach false (Plus space) " " s i (spanLength is_space s)
    = collapse true s.
Proof.
  induction s as [|a s IH]; intros i.
  - split; reflexivity.
  - destruct (whitespaceRun_matchAt a s i) as [Hsp Hns].
    assert (H0 : replaceEach false (Plus space) " " (String a s) i 0
                 = collapse false (String a s)).
    { simpl. destruct (is_space a) eqn:Ha.
      - destruct (Hsp eq_refl) as (y & -> & ->).
        rewrite (proj2 (IH (S i))). reflexivity.
      - rewrite (Hns eq_refl), (proj1 (IH (S i))). reflexivity. }
    split; [exact H0|].
    cbn [spanLength]. destruct (is_space a) eqn:Ha.
    + cbn [replaceEach collapse]. rewrite Ha. apply IH.
    + rewrite H0. simpl. rewrite Ha. reflexivity.
Qed.

Lemma collapse_spacedOnce (s : string) :
  forall inRun,
    spacedOnce false (collapse inRun s) = true /\
    (inRun = true ->
     match collapse inRun s with
     | String b _ => negb (is_space b)
     | EmptyString => true
     end = true).
Proof.
  induction s as [|a s IH]; intros inRun; simpl; [auto|].
  destruct (is_space a) eqn:Ha.
  - destruct (IH true) as [H1 H2]. destruct inRun.
    + split; [exact H1 | intros _; apply H2; reflexivity].
    + split; [|discriminate]. simpl. rewrite H1, andb_true_r.
      specialize (H2 eq_refl). destruct (collapse true s); [reflexivity|].
      exact H2.
  - destruct (IH false) as [H1 _]. split.
    + simpl. rewrite Ha. exact H1.
    + intros _. rewrite Ha. reflexivity.
Qed.

Lemma trimStart_spacedOnce (s : string) :
  spacedOnce false s = true ->
  spacedOnce false (trimStart s) = true /\
  match trimStart s with
  | String b _ => negb (is_space b)
  | EmptyString => true
  end = true.
Proof.
  induction s as [|a s IH]; intros H; [auto|].
  cbn [trimStart]. destruct (is_space a) eqn:Ha.
  - apply IH. simpl in H. apply andb_true_iff in H. tauto.
  - split; [exact H | rewrite Ha; reflexivity].
Qed.

Lemma trimEnd_head (s : string) (b : ascii) (t : string) :
  trimEnd s = String b t -> exists s', s = String b s'.
Proof.
  destruct s as [|a s]; simpl; [discriminate|].
  destruct (trimEnd s); [destruct (is_space a)|]; intros H;
    try discriminate; injection H as -> _; eexists; reflexivity.
Qed.

Lemma trimEnd_spacedOnce (s : string) :
  spacedOnce false s = true -> spacedOnce true (trimEnd s) = true.
Proof.
  induction s as [|a s IH]; intros H; [reflexivity|].
  simpl in H. apply andb_true_iff in H. destruct H as [Ha Hs].
  specialize (IH Hs). cbn [trimEnd].
  destruct (trimEnd s) as [|b t] eqn:E.
  - destruct (is_space a) eqn:Hsp; simpl; [reflexivity|].
    rewrite Hsp. reflexivity.
  - destruct (trimEnd_head s b t E) as [s' ->].
    cbn [spacedOnce]. cbn [spacedOnce] in IH. rewrite IH, andb_true_r.
    destruct (is_space a); [|reflexivity].
    apply andb_true_iff in Ha. destruct Ha as [Ha1 Ha2].
    rewrite Ha1, Ha2. reflexivity.
Qed.

Lemma trimEnd_keeps_head (s : string) :
  match s with String b _ => negb (is_space b) | EmptyString => true end = true ->
  match trimEnd s with String b _ => negb (is_space b) | EmptyString => true end
  = true.
Proof.
  destruct s as [|a s]; [reflexivity|]. simpl. intros Ha.
  destruct (trimEnd s); [|exact Ha].
  destruct (is_space a) eqn:E; [reflexivity|]. simpl. rewrite E. reflexivity.
Qed.

Lemma cleaned_wellSpaced (text : string) : wellSpaced (cleaned text) = true.
Proof.
  unfold cleaned, replace at 1, whitespaceRun.
  cbn [global ignoreCase source].
  rewrite (proj1 (replaceEach_whitespaceRun _ 0)).
  set (d := collapse false _).
  destruct (trimStart_spacedOnce d (proj1 (collapse_spacedOnce _ false)))
    as [H1 H2].
  unfold wellSpaced, trim.
  rewrite (trimEnd_keeps_head _ H2), (trimEnd_spacedOnce _ H1). reflexivity.
Qed.

Lemma is_space_upper (c : ascii) : is_space (upper_char c) = is_space c.
Proof. destruct c as [[] [] [] [] [] [] [] []]; reflexivity. Qed.

Lemma capitalize_wellSpaced (d : string) :
  wellSpaced d = true -> wellSpaced (capitalize d) = true.
Proof.
  destruct d as [|a t]; [reflexivity|].
  rewrite capitalize_cons. unfold wellSpaced. cbn [spacedOnce].
  rewrite is_space_upper. destruct (is_space a); [discriminate|].
  intros H. exact H.
Qed.

(** X15: when stripping leaves at least 2 characters, the description of
    a parsed expense has no whitespace at either end, and every
    whitespace character in it is a single space between two characters
    that are not whitespace. *)
Theorem description_wellSpaced (env : Env) (s : string) (e : ParsedExpense) :
  parseVoiceInput env (VString s) = Normal (Some e) ->
  2 <= String.length (cleaned s) ->
  wellSpaced (description e) = true.
Proof.
  intros H Hlen. apply parseVoiceInput_some in H.
  destruct H as (s' & Hv & _ & _ & Hd & _). injection Hv as <-.
  rewrite Hd, extractDescription_chosen, (chosenDescription_cleaned s Hlen).
  apply capitalize_wellSpaced, cleaned_wellSpaced.
Qed.

Lemma description_wellSpaced_witness :
  wellSpaced "Lunch at the del" = true.
Proof.
  apply (description_wellSpaced sampleEnv
           "Lunch  was   12 dollars  at  the deli"
           {| amount := Finite 12;
              description := "Lunch at the del";
              date := Some {| getTime := clockAtNewDate sampleEnv |} |}
           eq_refl).
  apply Nat.leb_le. reflexivity.
Defined.

(** ** Letter case and surrounding whitespace *)

Lemma map_chars_compose (f g : ascii -> ascii) (s : string) :
  map_chars f (map_chars g s) = map_chars (fun c => f (g c)) s.
Proof. induction s as [|a s IH]; simpl; [reflexivity | rewrite IH; reflexivity]. Qed.

Lemma map_chars_ext (f g : ascii -> ascii) (s : string) :
  (forall c, f c = g c) -> map_chars f s = map_chars g s.
Proof.
  intros H. induction s as [|a s IH]; simpl; [reflexivity|].
  rewrite H, IH. reflexivity.
Qed.

Lemma toLowerCase_toUpperCase (s : string) :
  toLowerCase (toUpperCase s) = toLowerCase s.
Proof.
  unfold toLowerCase, toUpperCase. rewrite map_chars_compose.
  apply map_chars_ext. intros c.
  destruct c as [[] [] [] [] [] [] [] []]; reflexivity.
Qed.

Lemma toLowerCase_idempotent (s : string) :
  toLowerCase (toLowerCase s) = toLowerCase s.
Proof.
  unfold toLowerCase. rewrite map_chars_compose.
  apply map_chars_ext. intros c.
  destruct c as [[] [] [] [] [] [] [] []]; reflexivity.
Qed.

Lemma is_space_lower (c : ascii) : is_space (lower_char c) = is_space c.
Proof. destruct c as [[] [] [] [] [] [] [] []]; reflexivity. Qed.

Lemma toLowerCase_trimStart (s : string) :
  toLowerCase (trimStart s) = trimStart (toLowerCase s).
Proof.
  induction s as [|a s IH]; simpl; [reflexivity|].
  rewrite is_space_lower. destruct (is_space a); [exact IH | reflexivity].
Qed.

Lemma toLowerCase_trimEnd (s : string) :
  toLowerCase (trimEnd s) = trimEnd (toLowerCase s).
Proof.
  induction s as [|a s IH]; simpl; [reflexivity|].
  fold (toLowerCase s). rewrite <- IH, is_space_lower.
  destruct (trimEnd s); simpl; [destruct (is_space a)|]; reflexivity.
Qed.

Lemma trimEnd_idempotent (s : string) : trimEnd (trimEnd s) = trimEnd s.
Proof.
  induction s as [|a s IH]; simpl; [reflexivity|].
  destruct (trimEnd s) as [|b t] eqn:E.
  - destruct (is_space a) eqn:Ha; simpl; [reflexivity|].
    rewrite Ha. reflexivity.
  - cbn [trimEnd]. cbn [trimEnd] in IH. rewrite IH. reflexivity.
Qed.

Lemma trimStart_head (s : string) :
  match trimStart s with String b _ => negb (is_space b) | EmptyString => true end
  = true.
Proof.
  induction s as [|a s IH]; simpl; [reflexivity|].
  destruct (is_space a) eqn:Ha; [exact IH | simpl; rewrite Ha; reflexivity].
Qed.

Lemma trimStart_fixed (s : string) :
  match s with String b _ => negb (is_space b) | EmptyString => true end = true ->
  trimStart s = s.
Proof.
  destruct s as [|a s]; [reflexivity|]. simpl.
  destruct (is_space a); [discriminate | reflexivity].
Qed.

Lemma trim_idempotent (s : string) : trim (trim s) = trim s.
Proof.
  unfold trim.
  rewrite (trimStart_fixed (trimEnd (trimStart s))
             (trimEnd_keeps_head _ (trimStart_head s))).
  apply trimEnd_idempotent.
Qed.

Lemma normalize_trim (s : string) : normalize (trim s) = normalize s.
Proof.
  unfold normalize, trim at 2.
  rewrite toLowerCase_trimEnd, toLowerCase_trimStart.
  apply (trim_idempotent (toLowerCase s)).
Qed.

Lemma map_chars_empty (f : ascii -> ascii) (s : string) :
  map_chars f s = "" -> s = "".
Proof. destruct s; [reflexivity | discriminate]. Qed.

Lemma categorizeExpense_by_normal_form (s t : string) :
  normalize s = normalize t ->
  categorizeExpense (VString s) = categorizeExpense (VString t).
Proof.
  assert (H : forall u, categorizeExpense (VString u)
                        = Normal (bestCategory (normalize u) categoryOrder)).
  { intros u. destruct (string_dec u "") as [-> | Hu]; [reflexivity|].
    apply categorizeExpense_string. exact Hu. }
  intros E. rewrite (H s), (H t), E. reflexivity.
Qed.

(** X16: [categorizeExpense] gives an input, the input in upper case, the
    input in lower case and the trimmed input the same category. *)
Theorem categorizeExpense_ignores_case_and_margins (s : string) :
  categorizeExpense (VString (toUpperCase s)) = categorizeExpense (VString s)
  /\ categorizeExpense (VString (toLowerCase s)) = categorizeExpense (VString s)
  /\ categorizeExpense (VString (trim s)) = categorizeExpense (VString s).
Proof.
  repeat split; apply categorizeExpense_by_normal_form; unfold normalize.
  - rewrite toLowerCase_toUpperCase. reflexivity.
  - rewrite toLowerCase_idempotent. reflexivity.
  - apply normalize_trim.
Qed.

(** X17: for an utterance of ASCII characters, the amount and the date
    [parseVoiceInput] extracts do not depend on the letter case: in upper
    case it fails when the original fails, and succeeds with the same
    amount and date when the original succeeds. *)
Theorem parseVoiceInput_ignores_case (env : Env) (s : string) :
  allChars isAscii s = true ->
  match parseVoiceInput env (VString (toUpperCase s)),
        parseVoiceInput env (VString s) with
  | Normal (Some upper), Normal (Some original) =>
      amount upper = amount original /\ date upper = date original
  | Normal None, Normal None => True
  | _, _ => False
  end.
Proof.
  intros _.
  destruct (string_dec s "") as [-> | Hs]; [exact I|].
  assert (Hu : toUpperCase s <> "")
    by (intros E; apply Hs, (map_chars_empty upper_char), E).
  rewrite (parseVoiceInput_string env s Hs).
  rewrite (parseVoiceInput_string env _ Hu).
  assert (E : normalize (toUpperCase s) = normalize s)
    by (unfold normalize; rewrite toLowerCase_toUpperCase; reflexivity).
  rewrite E.
  destruct (extractAmount (normalize s) amountPatterns) as [a|]; [|exact I].
  destruct (negb (JsNumber.truthy a)); [exact I|]. split; reflexivity.
Qed.

Lemma parseVoiceInput_ignores_case_witness :
  match parseVoiceInput sampleEnv (VString (toUpperCase "Spent 5 this morning")),
        parseVoiceInput sampleEnv (VString "Spent 5 this morning") with
  | Normal (Some upper), Normal (Some original) =>
      amount upper = amount original /\ date upper = date original
  | Normal None, Normal None => True
  | _, _ => False
  end.
Proof.
  exact (parseVoiceInput_ignores_case sampleEnv "Spent 5 this morning" eq_refl).
Defined.
